(** * UHasselt schedule optimizer: the schedule reduction engine

    A shallow embedding of [UHasseltScheduleOptimizer] (main.py): the group
    classifier [detect_group], the course grouper [group_events_by_course],
    the selector [select_optimal_event] and the pipeline
    [optimize_schedule], with the Python built-ins they rely on
    ([re.search], [re.match], [min], [max], [dict], [set], list indexing).

    Modelling conventions.
    - Text is a [string]; a character is a code point below 256.
    - An [Arrow] is an instant (seconds since the epoch, UTC) together with
      the UTC offset of its time zone: ordering compares instants,
      [weekday()] reads the local civil date.
    - An event carries its summary, its optional description, its begin and
      its end; the optimizer reads nothing else.
    - The events of a calendar are a Python set: the model keeps its members
      and takes the order in which the set yields them from a [set_order],
      about which nothing is known but that it yields every member once.
    - The module [Parsed] repeats the pipeline for events whose DTSTART or
      DTEND may be missing, with the errors Python raises on None.
    - A call either returns a value or raises: [outcome].
    - The configuration dictionary is a record of optional entries
      ([None] = key absent), read through [dict.get]. *)

From Stdlib Require Import ZArith List Bool String Ascii Lia Permutation.
Import ListNotations.

Local Open Scope string_scope.
Local Open Scope list_scope.

(** ** Python call outcomes *)

Inductive exception : Type :=
| ValueError       (* min()/max() of an empty sequence *)
| IndexError       (* list index out of range *)
| AttributeError   (* an attribute of None *)
| TypeError.       (* an ordering comparison with None *)

Inductive outcome (A : Type) : Type :=
| Returned (a : A)
| Raised (exc : exception).

Arguments Returned {A} a.
Arguments Raised {A} exc.

Definition bind {A B : Type} (m : outcome A) (k : A -> outcome B) : outcome B :=
  match m with
  | Returned a => k a
  | Raised exc => Raised exc
  end.

Definition fmap {A B : Type} (f : A -> B) (m : outcome A) : outcome B :=
  match m with
  | Returned a => Returned (f a)
  | Raised exc => Raised exc
  end.

Notation "x <- m ;; k" := (bind m (fun x => k))
  (at level 61, m at next level, right associativity).

(** ** Regular expressions ([re]) *)

Module Re.

Inductive cclass : Type :=
| Digit   (* \d *)
| Space.  (* \s *)

Inductive regex : Type :=
| Void
| Eps
| Lit (c : ascii)
| Class (k : cclass)
| Cat (r1 r2 : regex)
| Alt (r1 r2 : regex)
| Star (r : regex).

Definition code (c : ascii) : nat := nat_of_ascii c.

Definition between (lo hi n : nat) : bool := (lo <=? n)%nat && (n <=? hi)%nat.

Definition is_digit (c : ascii) : bool := between 48 57 (code c).

(** Whitespace as [\s] sees it on str patterns: TAB..CR, FS..US, SPACE,
    NEL and NBSP. *)
Definition is_space (c : ascii) : bool :=
  between 9 13 (code c) || between 28 32 (code c)
  || (code c =? 133)%nat || (code c =? 160)%nat.

Definition in_class (k : cclass) (c : ascii) : bool :=
  match k with
  | Digit => is_digit c
  | Space => is_space c
  end.

Definition lower (c : ascii) : ascii :=
  if between 65 90 (code c) then ascii_of_nat (code c + 32) else c.

(** A literal against a character of the text; [ic] is [re.IGNORECASE]. *)
Definition char_eq (ic : bool) (c x : ascii) : bool :=
  if ic then Ascii.eqb (lower c) (lower x) else Ascii.eqb c x.

(** The pattern that matches the characters of [s] in sequence. *)
Fixpoint lits (s : list ascii) : regex :=
  match s with
  | [] => Eps
  | c :: s' => Cat (Lit c) (lits s')
  end.

Definition str (s : string) : regex := lits (list_ascii_of_string s).

Definition plus (r : regex) : regex := Cat r (Star r).

Fixpoint nullable (r : regex) : bool :=
  match r with
  | Void => false
  | Eps => true
  | Lit _ => false
  | Class _ => false
  | Cat r1 r2 => nullable r1 && nullable r2
  | Alt r1 r2 => nullable r1 || nullable r2
  | Star _ => true
  end.

Fixpoint deriv (ic : bool) (a : ascii) (r : regex) : regex :=
  match r with
  | Void => Void
  | Eps => Void
  | Lit c => if char_eq ic c a then Eps else Void
  | Class k => if in_class k a then Eps else Void
  | Cat r1 r2 =>
      if nullable r1
      then Alt (Cat (deriv ic a r1) r2) (deriv ic a r2)
      else Cat (deriv ic a r1) r2
  | Alt r1 r2 => Alt (deriv ic a r1) (deriv ic a r2)
  | Star r1 => Cat (deriv ic a r1) (Star r1)
  end.

(** Some prefix of [s] matches [r]: the truth value of [re.match]. *)
Fixpoint match_ (ic : bool) (r : regex) (s : list ascii) : bool :=
  nullable r ||
  match s with
  | [] => false
  | a :: s' => match_ ic (deriv ic a r) s'
  end.

(** Some substring of [s] matches [r]: the truth value of [re.search]. *)
Fixpoint search (ic : bool) (r : regex) (s : list ascii) : bool :=
  match_ ic r s ||
  match s with
  | [] => false
  | _ :: s' => search ic r s'
  end.

(** [re.match] on a pattern [(g)rest] whose group is a single greedy
    repetition: the group takes the longest prefix after which [rest]
    still matches; the result is [group(1)]. *)
Fixpoint match_group1 (ic : bool) (g rest : regex) (s : list ascii)
  : option (list ascii) :=
  let here := if nullable g && match_ ic rest s then Some [] else None in
  match s with
  | [] => here
  | a :: s' =>
      match match_group1 ic (deriv ic a g) rest s' with
      | Some p => Some (a :: p)
      | None => here
      end
  end.

(** The language of a pattern, as a relation. *)
Inductive lang (ic : bool) : regex -> list ascii -> Prop :=
| L_eps : lang ic Eps []
| L_lit c x : char_eq ic c x = true -> lang ic (Lit c) [x]
| L_class k x : in_class k x = true -> lang ic (Class k) [x]
| L_cat r1 r2 s1 s2 :
    lang ic r1 s1 -> lang ic r2 s2 -> lang ic (Cat r1 r2) (s1 ++ s2)
| L_alt_l r1 r2 s : lang ic r1 s -> lang ic (Alt r1 r2) s
| L_alt_r r1 r2 s : lang ic r2 s -> lang ic (Alt r1 r2) s
| L_star_nil r : lang ic (Star r) []
| L_star_cons r s1 s2 :
    lang ic r s1 -> lang ic (Star r) s2 -> lang ic (Star r) (s1 ++ s2).

End Re.

(** ** Python built-ins used by the optimizer *)

(** [d.get(key, default)] on an entry that may be absent. *)
Definition get {A : Type} (entry : option A) (default : A) : A :=
  match entry with
  | Some v => v
  | None => default
  end.

(** [d.get(key) == s]: an absent entry reads as [None], equal to no str. *)
Definition is_str (entry : option string) (s : string) : bool :=
  match entry with
  | Some v => String.eqb v s
  | None => false
  end.

(** [min(l, key=...)]: the first item is the running best, a later item
    replaces it only when its key is strictly smaller. *)
Definition py_min {A : Type} (key : A -> Z) (l : list A) : outcome A :=
  match l with
  | [] => Raised ValueError
  | x :: xs =>
      Returned (fold_left (fun best y => if (key y <? key best)%Z then y else best) xs x)
  end.

(** [max(l, key=...)]: a later item replaces the running best only when its
    key is strictly greater. *)
Definition py_max {A : Type} (key : A -> Z) (l : list A) : outcome A :=
  match l with
  | [] => Raised ValueError
  | x :: xs =>
      Returned (fold_left (fun best y => if (key y >? key best)%Z then y else best) xs x)
  end.

(** [l[0]]. *)
Definition getitem0 {A : Type} (l : list A) : outcome A :=
  match l with
  | [] => Raised IndexError
  | x :: _ => Returned x
  end.

(** ** Data model *)

(** An arrow date-time: ordering is by [timestamp]; the civil date is the
    one at [utcoffset] seconds east of UTC. *)
Record Arrow : Type := {
  timestamp : Z;
  utcoffset : Z
}.

(** [a.weekday()]: Monday is 0, Sunday is 6 (1970-01-01 was a Thursday). *)
Definition weekday (a : Arrow) : Z :=
  (((timestamp a + utcoffset a) / 86400 + 3) mod 7)%Z.

(** An [ics] event, with the attributes the optimizer reads ([name],
    [description], [begin]) and the end of the session. *)
Record Event : Type := {
  name : string;
  description : option string;
  begin : Arrow;
  end_ : Arrow
}.

(** The configuration dictionary: each entry is present or absent. *)
Record Config : Type := {
  preferred_group : option string;
  fallback_group_behavior : option string;
  optimization_mode : option string;
  skip_weekends : option bool
}.

(** A group detection rule: {"regex": ..., "assign": ...}. *)
Record rule : Type := {
  regex : Re.regex;
  assign : string
}.

(** A [dict] from course code to event list, in insertion order. *)
Definition dict : Type := list (string * list Event).

(** An ics calendar. Its [events] are a Python set: the list holds the
    members, in the order they were added; the set itself keeps no order. *)
Record Calendar (A : Type) : Type := {
  events : list A
}.

Arguments events {A} c.
Arguments Build_Calendar {A} events.

(** The order in which a set yields its members when it is iterated: an
    arrangement of the members that the set chooses. *)
Record set_order (A : Type) : Type := {
  iteration : list A -> list A;
  iteration_perm : forall members, Permutation (iteration members) members
}.

Arguments iteration {A} s members.
Arguments iteration_perm {A} s members.

Section PythonSet.

Context {A : Type} (same : A -> A -> bool).

(** [s.add(e)]: a member that is already there is not added again. *)
Definition set_add (e : A) (members : list A) : list A :=
  if existsb (same e) members then members else members ++ [e].

(** The set that results from adding the items of [l] to an empty set. *)
Definition set_of (l : list A) : list A :=
  fold_left (fun members e => set_add e members) l [].

End PythonSet.

Definition option_eqb {A : Type} (eqb : A -> A -> bool) (a b : option A) : bool :=
  match a, b with
  | Some x, Some y => eqb x y
  | None, None => true
  | _, _ => false
  end.

Definition arrow_eqb (a b : Arrow) : bool :=
  (timestamp a =? timestamp b)%Z && (utcoffset a =? utcoffset b)%Z.

(** Two events are the same member of a set when their attributes agree. *)
Definition event_eqb (a b : Event) : bool :=
  String.eqb (name a) (name b)
  && option_eqb String.eqb (description a) (description b)
  && arrow_eqb (begin a) (begin b)
  && arrow_eqb (end_ a) (end_ b).

(** ** UHasseltScheduleOptimizer *)

(** [_load_config]: the parsed file, or the default configuration when the
    file is not found. *)
Definition _load_config (file : option Config) : Config :=
  match file with
  | Some cfg => cfg
  | None =>
      {| preferred_group := Some "A";
         fallback_group_behavior := Some "use_all_if_missing";
         optimization_mode := Some "earliest_lesson";
         skip_weekends := Some true |}
  end.

(** (groep|Group)\s*<letter> *)
Definition group_letter (letter : ascii) : Re.regex :=
  Re.Cat (Re.Alt (Re.str "groep") (Re.str "Group"))
         (Re.Cat (Re.Star (Re.Class Re.Space)) (Re.Lit letter)).

Definition _load_group_rules : list rule :=
  [ {| regex := group_letter "A"; assign := "A" |};
    {| regex := group_letter "B"; assign := "B" |};
    {| regex := group_letter "C"; assign := "C" |};
    {| regex := group_letter "D"; assign := "D" |};
    {| regex := group_letter "E"; assign := "E" |};
    {| regex := Re.Alt (Re.str "all") (Re.str "alle"); assign := "ALL" |};
    {| regex := Re.str "{N/A}"; assign := "NA" |} ].

(** f"{event.name} {event.description or ''}" *)
Definition text_to_analyze (event : Event) : string :=
  name event ++ " " ++
  match description event with
  | Some d => d
  | None => ""
  end.

(** The loop of [detect_group]: the first rule whose pattern is found. *)
Fixpoint first_match (rules : list rule) (text : list ascii) : string :=
  match rules with
  | [] => "UNKNOWN"
  | r :: rules' =>
      if Re.search true (regex r) text then assign r else first_match rules' text
  end.

Definition detect_group (event : Event) : string :=
  first_match _load_group_rules (list_ascii_of_string (text_to_analyze event)).

(** The pattern ^(\d+)\s*-\s* : its group, and what follows the group. *)
Definition course_digits : Re.regex := Re.plus (Re.Class Re.Digit).

Definition course_dash : Re.regex :=
  Re.Cat (Re.Star (Re.Class Re.Space))
         (Re.Cat (Re.Lit "-") (Re.Star (Re.Class Re.Space))).

(** The course code [group_events_by_course] extracts from a summary. *)
Definition course_code (event : Event) : string :=
  match Re.match_group1 false course_digits course_dash
          (list_ascii_of_string (name event)) with
  | Some digits => string_of_list_ascii digits
  | None => "UNKNOWN"
  end.

(** [if code not in d: d[code] = []] followed by [d[code].append(event)]:
    an existing entry keeps its place, a new one goes last. *)
Fixpoint dict_append (code : string) (event : Event) (d : dict) : dict :=
  match d with
  | [] => [(code, [event])]
  | (k, members) :: d' =>
      if String.eqb code k
      then (k, members ++ [event]) :: d'
      else (k, members) :: dict_append code event d'
  end.

Definition group_events_by_course (events : list Event) : dict :=
  fold_left (fun course_groups event =>
               dict_append (course_code event) event course_groups)
            events [].

(** The candidates of [select_optimal_event], before the emptiness guard. *)
Definition events_to_choose_from (cfg : Config) (events : list Event) : list Event :=
  let events_with_groups := map (fun e => (e, detect_group e)) events in
  let preferred := get (preferred_group cfg) "A" in
  let preferred_events :=
    map fst (filter (fun eg => String.eqb (snd eg) preferred) events_with_groups) in
  match preferred_events with
  | _ :: _ => preferred_events
  | [] =>
      if is_str (fallback_group_behavior cfg) "use_all_if_missing" then
        match map fst (filter (fun eg => String.eqb (snd eg) "ALL") events_with_groups) with
        | [] => map fst events_with_groups
        | all_events => all_events
        end
      else map fst events_with_groups
  end.

Definition start (e : Event) : Z := timestamp (begin e).

Definition select_optimal_event (cfg : Config) (events : list Event)
    (_course_code : string) : outcome (option Event) :=
  match events with
  | [] => Returned None
  | _ :: _ =>
      match events_to_choose_from cfg events with
      | [] => e <- getitem0 events ;; Returned (Some e)
      | candidates =>
          let mode := get (optimization_mode cfg) "earliest_lesson" in
          if String.eqb mode "earliest_lesson" then
            e <- py_min start candidates ;; Returned (Some e)
          else if String.eqb mode "latest_lesson" then
            e <- py_max start candidates ;; Returned (Some e)
          else
            e <- getitem0 candidates ;; Returned (Some e)
      end
  end.

Definition should_skip_weekend (cfg : Config) (event : Event) : bool :=
  if negb (get (skip_weekends cfg) true) then false
  else (5 <=? weekday (begin event))%Z.

(** The selection loop of [optimized_events] over the dictionary items;
    an event object is always truthy, [None] is not. *)
Fixpoint select_each (cfg : Config) (items : dict) : outcome (list Event) :=
  match items with
  | [] => Returned []
  | (code, course_events) :: items' =>
      optimal_event <- select_optimal_event cfg course_events code ;;
      optimized_events <- select_each cfg items' ;;
      Returned match optimal_event with
               | Some e => e :: optimized_events
               | None => optimized_events
               end
  end.

(** The list [optimized_events] that [optimize_schedule] builds, from the
    events of the calendar in the order [calendar.events] yields them. *)
Definition optimized_events (cfg : Config) (calendar : list Event)
    : outcome (list Event) :=
  let events := filter (fun e => negb (should_skip_weekend cfg e)) calendar in
  let course_groups := group_events_by_course events in
  select_each cfg course_groups.

(** [optimize_schedule]: the events are read by iterating the set
    [calendar.events], and the selected events are added one by one to the
    set of a new calendar, which is returned. *)
Definition optimize_schedule (order : set_order Event) (cfg : Config)
    (calendar : Calendar Event) : outcome (Calendar Event) :=
  optimized <- optimized_events cfg (iteration order (events calendar)) ;;
  Returned {| events := set_of event_eqb optimized |}.

(** ** The pipeline on events with missing dates *)

Module Parsed.

(** An event as the ics parser delivers it: a VEVENT may come without
    DTSTART or without DTEND, and the attribute is then None. *)
Record VEvent : Type := {
  name : string;
  description : option string;
  begin : option Arrow;
  end_ : option Arrow
}.

Definition dict : Type := list (string * list VEvent).

Definition text_to_analyze (event : VEvent) : string :=
  name event ++ " " ++
  match description event with
  | Some d => d
  | None => ""
  end.

Definition detect_group (event : VEvent) : string :=
  first_match _load_group_rules (list_ascii_of_string (text_to_analyze event)).

Definition course_code (event : VEvent) : string :=
  match Re.match_group1 false course_digits course_dash
          (list_ascii_of_string (name event)) with
  | Some digits => string_of_list_ascii digits
  | None => "UNKNOWN"
  end.

Fixpoint dict_append (code : string) (event : VEvent) (d : dict) : dict :=
  match d with
  | [] => [(code, [event])]
  | (k, members) :: d' =>
      if String.eqb code k
      then (k, members ++ [event]) :: d'
      else (k, members) :: dict_append code event d'
  end.

Definition group_events_by_course (events : list VEvent) : dict :=
  fold_left (fun course_groups event =>
               dict_append (course_code event) event course_groups)
            events [].

Definition events_to_choose_from (cfg : Config) (events : list VEvent) : list VEvent :=
  let events_with_groups := map (fun e => (e, detect_group e)) events in
  let preferred := get (preferred_group cfg) "A" in
  let preferred_events :=
    map fst (filter (fun eg => String.eqb (snd eg) preferred) events_with_groups) in
  match preferred_events with
  | _ :: _ => preferred_events
  | [] =>
      if is_str (fallback_group_behavior cfg) "use_all_if_missing" then
        match map fst (filter (fun eg => String.eqb (snd eg) "ALL") events_with_groups) with
        | [] => map fst events_with_groups
        | all_events => all_events
        end
      else map fst events_with_groups
  end.

(** [a < b] on two begins: an ordering comparison that involves None
    raises TypeError. *)
Definition lt (a b : option Arrow) : outcome bool :=
  match a, b with
  | Some x, Some y => Returned (timestamp x <? timestamp y)%Z
  | _, _ => Raised TypeError
  end.

Definition gt (a b : option Arrow) : outcome bool :=
  match a, b with
  | Some x, Some y => Returned (timestamp x >? timestamp y)%Z
  | _, _ => Raised TypeError
  end.

(** The loop of [min] and [max]: each further item is compared with the
    running best; a single item is returned without any comparison. *)
Fixpoint best_from (better : option Arrow -> option Arrow -> outcome bool)
    (best : VEvent) (l : list VEvent) : outcome VEvent :=
  match l with
  | [] => Returned best
  | y :: l' =>
      b <- better (begin y) (begin best) ;;
      best_from better (if b then y else best) l'
  end.

Definition py_min (l : list VEvent) : outcome VEvent :=
  match l with
  | [] => Raised ValueError
  | x :: xs => best_from lt x xs
  end.

Definition py_max (l : list VEvent) : outcome VEvent :=
  match l with
  | [] => Raised ValueError
  | x :: xs => best_from gt x xs
  end.

Definition select_optimal_event (cfg : Config) (events : list VEvent)
    (_course_code : string) : outcome (option VEvent) :=
  match events with
  | [] => Returned None
  | _ :: _ =>
      match events_to_choose_from cfg events with
      | [] => e <- getitem0 events ;; Returned (Some e)
      | candidates =>
          let mode := get (optimization_mode cfg) "earliest_lesson" in
          if String.eqb mode "earliest_lesson" then
            e <- py_min candidates ;; Returned (Some e)
          else if String.eqb mode "latest_lesson" then
            e <- py_max candidates ;; Returned (Some e)
          else
            e <- getitem0 candidates ;; Returned (Some e)
      end
  end.

(** [event.begin.weekday()] on a begin that is None raises AttributeError. *)
Definition should_skip_weekend (cfg : Config) (event : VEvent) : outcome bool :=
  if negb (get (skip_weekends cfg) true) then Returned false
  else
    match begin event with
    | Some a => Returned (5 <=? weekday a)%Z
    | None => Raised AttributeError
    end.

(** [e for e in calendar.events if not self.should_skip_weekend(e)] *)
Fixpoint not_skipped (cfg : Config) (calendar : list VEvent) : outcome (list VEvent) :=
  match calendar with
  | [] => Returned []
  | e :: calendar' =>
      skip <- should_skip_weekend cfg e ;;
      events <- not_skipped cfg calendar' ;;
      Returned (if skip then events else e :: events)
  end.

Fixpoint select_each (cfg : Config) (items : dict) : outcome (list VEvent) :=
  match items with
  | [] => Returned []
  | (code, course_events) :: items' =>
      optimal_event <- select_optimal_event cfg course_events code ;;
      optimized_events <- select_each cfg items' ;;
      Returned match optimal_event with
               | Some e => e :: optimized_events
               | None => optimized_events
               end
  end.

Definition vevent_eqb (a b : VEvent) : bool :=
  String.eqb (name a) (name b)
  && option_eqb String.eqb (description a) (description b)
  && option_eqb arrow_eqb (begin a) (begin b)
  && option_eqb arrow_eqb (end_ a) (end_ b).

Definition optimize_schedule (order : set_order VEvent) (cfg : Config)
    (calendar : Calendar VEvent) : outcome (Calendar VEvent) :=
  events <- not_skipped cfg (iteration order (events calendar)) ;;
  optimized <- select_each cfg (group_events_by_course events) ;;
  Returned {| events := set_of vevent_eqb optimized |}.

(** The weekend filter drops the event: it is in force and the event
    starts on a Saturday or a Sunday. *)
Definition dropped (cfg : Config) (event : VEvent) : bool :=
  get (skip_weekends cfg) true &&
  match begin event with
  | Some a => (5 <=? weekday a)%Z
  | None => false
  end.

Definition no_begin (event : VEvent) : bool :=
  match begin event with
  | Some _ => false
  | None => true
  end.

(** The event with all its dates present, as the parser delivers it. *)
Definition of_event (event : Event) : VEvent :=
  match event with
  | Build_Event n d b e =>
      {| name := n; description := d; begin := Some b; end_ := Some e |}
  end.

End Parsed.

(** ** Vocabulary of the statements *)

Definition chars (s : string) : list ascii := list_ascii_of_string s.

(** Equal up to the case of ASCII letters. *)
Definition ci_equal (p w : list ascii) : Prop := map Re.lower p = map Re.lower w.

Definition all_space (ws : list ascii) : Prop :=
  Forall (fun x => Re.is_space x = true) ws.

Definition all_digit (ds : list ascii) : Prop :=
  Forall (fun x => Re.is_digit x = true) ds.

(** [w] occurs in [text] as a substring. *)
Definition contains (text w : list ascii) : Prop :=
  exists pre post, text = pre ++ w ++ post.

(** [p] occurs in [text], whatever the case of its letters. *)
Definition contains_ci (text : list ascii) (p : string) : Prop :=
  exists w, ci_equal (chars p) w /\ contains text w.

Definition group_word (g : list ascii) : Prop :=
  ci_equal (chars "groep") g \/ ci_equal (chars "group") g.

(** "groep A", "Group  b", "GROEPA": the word, optional whitespace, the letter. *)
Definition group_phrase (letter : ascii) (w : list ascii) : Prop :=
  exists g ws c,
    w = g ++ ws ++ [c] /\ group_word g /\ all_space ws /\ Re.lower c = Re.lower letter.

(** "A groep", "bGroup": the letter, optional whitespace, the word. *)
Definition reverse_phrase (letter : ascii) (w : list ascii) : Prop :=
  exists c ws g,
    w = c :: ws ++ g /\ group_word g /\ all_space ws /\ Re.lower c = Re.lower letter.

Definition letters : list ascii := ["A"; "B"; "C"; "D"; "E"]%char.

Definition label (letter : ascii) : string := String letter EmptyString.

Definition text_of (event : Event) : list ascii := chars (text_to_analyze event).

Definition has_group_phrase (event : Event) (letter : ascii) : Prop :=
  exists w, group_phrase letter w /\ contains (text_of event) w.

Definition has_reverse_phrase (event : Event) (letter : ascii) : Prop :=
  exists w, reverse_phrase letter w /\ contains (text_of event) w.

(** Whether [re.search] finds the pattern in the text of the event. *)
Definition found (event : Event) (r : Re.regex) : bool :=
  Re.search true r (text_of event).

(** The title starts with the digit run [ds], optional whitespace and a dash. *)
Definition leading_code (title ds : list ascii) : Prop :=
  exists ws rest,
    title = ds ++ ws ++ "-"%char :: rest /\ ds <> [] /\ all_digit ds /\ all_space ws.

(** The distinct keys of a list, each at the place of its first occurrence. *)
Fixpoint first_seen (keys : list string) : list string :=
  match keys with
  | [] => []
  | k :: keys' => k :: filter (fun k' => negb (String.eqb k' k)) (first_seen keys')
  end.

(** The members of [events] whose course code is [k], in order. *)
Definition members_of (k : string) (events : list Event) : list Event :=
  filter (fun e => String.eqb (course_code e) k) events.

(** The clusters of [events]: the distinct course codes in first-seen order,
    each with its members in feed order. *)
Definition grouped (events : list Event) : dict :=
  map (fun k => (k, members_of k events)) (first_seen (map course_code events)).

(** The members of [events] that [detect_group] labels [g], in order. *)
Definition labelled (g : string) (events : list Event) : list Event :=
  filter (fun e => String.eqb (detect_group e) g) events.

(** The group the configuration prefers. *)
Definition preferred (cfg : Config) : string := get (preferred_group cfg) "A".

(** The tie-break the configuration asks for. *)
Definition mode (cfg : Config) : string := get (optimization_mode cfg) "earliest_lesson".

(** The configuration with another entry for the fallback behaviour. *)
Definition with_fallback (v : option string) (cfg : Config) : Config :=
  {| preferred_group := preferred_group cfg;
     fallback_group_behavior := v;
     optimization_mode := optimization_mode cfg;
     skip_weekends := skip_weekends cfg |}.

(** The steps of [min] and [max] on events keyed by their start. *)
Definition smaller (best y : Event) : Event :=
  if (start y <? start best)%Z then y else best.

Definition greater (best y : Event) : Event :=
  if (start y >? start best)%Z then y else best.

(** [r] is the first of the candidates with the smallest start. *)
Definition first_min (candidates : list Event) (r : Event) : Prop :=
  exists before after,
    candidates = before ++ r :: after /\
    Forall (fun x => (start r < start x)%Z) before /\
    Forall (fun x => (start r <= start x)%Z) after.

(** [r] is the first of the candidates with the greatest start. *)
Definition first_max (candidates : list Event) (r : Event) : Prop :=
  exists before after,
    candidates = before ++ r :: after /\
    Forall (fun x => (start x < start r)%Z) before /\
    Forall (fun x => (start x <= start r)%Z) after.

(** The event with its end replaced. *)
Definition with_end (f : Event -> Arrow) (e : Event) : Event :=
  {| name := name e; description := description e; begin := begin e; end_ := f e |}.

Definition kept (cfg : Config) (calendar : list Event) : list Event :=
  filter (fun e => negb (should_skip_weekend cfg e)) calendar.

(** ** The Google Calendar integration and the callers *)

(** The character class [A-E], as the alternation of its five letters. *)
Definition letter_class : Re.regex :=
  Re.Alt (Re.Lit "A")
    (Re.Alt (Re.Lit "B") (Re.Alt (Re.Lit "C") (Re.Alt (Re.Lit "D") (Re.Lit "E")))).

Definition last_char (p : list ascii) : option ascii :=
  match rev p with
  | c :: _ => Some c
  | [] => None
  end.

(** [re.search] on a pattern whose group is its last character before
    [post]: the leftmost position where the pattern matches, the part up to
    the group taking the longest run it can; the result is [group(1)]. *)
Fixpoint search_group1 (ic : bool) (upto post : Re.regex) (s : list ascii)
  : option ascii :=
  match Re.match_group1 ic upto post s with
  | Some p => last_char p
  | None =>
      match s with
      | [] => None
      | _ :: s' => search_group1 ic upto post s'
      end
  end.

(** word\s*([A-E]) : the pattern up to its group, and what follows. *)
Definition word_then_letter (word : string) : Re.regex * Re.regex :=
  (Re.Cat (Re.str word) (Re.Cat (Re.Star (Re.Class Re.Space)) letter_class), Re.Eps).

(** ([A-E])\s*word *)
Definition letter_then_word (word : string) : Re.regex * Re.regex :=
  (letter_class, Re.Cat (Re.Star (Re.Class Re.Space)) (Re.str word)).

Definition group_patterns : list (Re.regex * Re.regex) :=
  [ word_then_letter "groep"; word_then_letter "group";
    letter_then_word "groep"; letter_then_word "group" ].

(** The loop of [_extract_group_from_event]. *)
Fixpoint first_group (patterns : list (Re.regex * Re.regex)) (text : list ascii)
  : option string :=
  match patterns with
  | [] => None
  | (upto, post) :: patterns' =>
      match search_group1 true upto post text with
      | Some c => Some (String c EmptyString)
      | None => first_group patterns' text
      end
  end.

(** GoogleCalendarIntegration._extract_group_from_event *)
Definition _extract_group_from_event (event : Event) : option string :=
  first_group group_patterns (list_ascii_of_string (text_to_analyze event)).

(** A str is truthy when it is not empty. *)
Definition truthy (s : string) : bool := negb (String.eqb s "").

Definition newline : string := String (ascii_of_nat 10) EmptyString.

(** The description [ics_event_to_google_event] gives the Google event. *)
Definition google_description (event : Event) : string :=
  let description_parts :=
    (match description event with
     | Some d => if truthy d then [d] else []
     | None => []
     end
     ++
     match _extract_group_from_event event with
     | Some group_info =>
         if truthy group_info then [("Groep: " ++ group_info)%string] else []
     | None => []
     end)%list in
  match description_parts with
  | [] => ""
  | _ :: _ => String.concat newline description_parts
  end.

(** The configuration the /optimize and /google-calendar/sync endpoints
    build from the optional entries of the request. *)
Definition webhook_config (data_preferred_group data_optimization_mode : option string)
  : Config :=
  {| preferred_group := Some (get data_preferred_group "A");
     fallback_group_behavior := Some "use_all_if_missing";
     optimization_mode := Some (get data_optimization_mode "earliest_lesson");
     skip_weekends := Some true |}.

(** The eight labels of the rule table and its default. *)
Definition group_labels : list string :=
  ["A"; "B"; "C"; "D"; "E"; "ALL"; "NA"; "UNKNOWN"].

(** ** Sample data *)

Module Sample.

(** A UTC date-time, from the day number since 1970-01-01. *)
Definition utc (day hour minute : Z) : Arrow :=
  {| timestamp := (day * 86400 + hour * 3600 + minute * 60)%Z; utcoffset := 0 |}.

(** 2024-10-09, a Wednesday, is day 20005. *)
Definition wed : Z := 20005.

(** The three events of test_optimizer.py. *)
Definition test1 : Event :=
  {| name := "5417 - Algemene economie - Werkzitting 1HW A";
     description :=
       Some "Docent(en): ADRIAENSENS Charlotte, Groep(en): 03-005417 groep A, {N/A}";
     begin := utc wed 13 30; end_ := utc wed 15 0 |}.

Definition test2 : Event :=
  {| name := "5417 - Algemene economie - Werkzitting 1HW B";
     description :=
       Some "Docent(en): ADRIAENSENS Charlotte, Groep(en): 03-005417 groep B, {N/A}";
     begin := utc wed 15 0; end_ := utc wed 16 30 |}.

Definition test3 : Event :=
  {| name := "5418 - Wiskunde - Hoorcollege ALL";
     description := Some "Docent(en): SMITH John, Groep(en): 03-005418 all, {N/A}";
     begin := utc (wed + 1) 9 0; end_ := utc (wed + 1) 11 0 |}.

(** The reverse phrasing: the letter before the word. *)
Definition reversed : Event :=
  {| name := "5417 - Werkzitting A groep";
     description := None;
     begin := utc wed 13 30; end_ := utc wed 15 0 |}.

(** A session of group B and a later lecture for all groups. *)
Definition b_early : Event :=
  {| name := "5419 - Recht - Werkzitting";
     description := Some "Groep(en): groep B";
     begin := utc wed 9 0; end_ := utc wed 11 0 |}.

Definition all_late : Event :=
  {| name := "5419 - Recht - Hoorcollege";
     description := Some "Groep(en): all";
     begin := utc wed 13 30; end_ := utc wed 15 0 |}.

(** A course code with leading zeros, and the same number without. *)
Definition zeros : Event :=
  {| name := "007 -Ethiek"; description := None;
     begin := utc wed 9 0; end_ := utc wed 11 0 |}.

Definition no_zeros : Event :=
  {| name := "7 - Ethiek"; description := None;
     begin := utc wed 11 0; end_ := utc wed 13 0 |}.

(** A title without a course code. *)
Definition untitled : Event :=
  {| name := "Infosessie - 2024"; description := None;
     begin := utc wed 17 0; end_ := utc wed 18 0 |}.

(** An excursion on Saturday 2024-10-12. *)
Definition saturday : Event :=
  {| name := "5420 - Excursie";
     description := Some "Groep(en): groep A";
     begin := utc (wed + 3) 9 0; end_ := utc (wed + 3) 17 0 |}.

(** A set that yields its members in the order they were added. *)
Definition feed_order {A : Type} : set_order A :=
  {| iteration := fun members => members;
     iteration_perm := fun members => Permutation_refl members |}.

Definition rotate {A : Type} (members : list A) : list A :=
  match members with
  | [] => []
  | x :: rest => rest ++ [x]
  end.

(** A set that yields the member added first after all the others. *)
Definition rotated {A : Type} : set_order A :=
  {| iteration := rotate;
     iteration_perm := fun members =>
       match members return Permutation (rotate members) members with
       | [] => perm_nil A
       | x :: rest => Permutation_sym (Permutation_cons_append rest x)
       end |}.

(** The same calendar without weekend skipping. *)
Definition with_weekends : Config :=
  {| preferred_group := Some "A";
     fallback_group_behavior := Some "use_all_if_missing";
     optimization_mode := Some "earliest_lesson";
     skip_weekends := Some false |}.



Definition config_file (fallback mode : option string) : Config :=
  {| preferred_group := Some "A";
     fallback_group_behavior := fallback;
     optimization_mode := mode;
     skip_weekends := Some true |}.

End Sample.

(** ** Facts about patterns *)

Section Patterns.

Import Re.
Variable ic : bool.

Lemma nullable_lang r : nullable r = true <-> lang ic r [].
Proof.
  split.
  - induction r; simpl; intros H; try discriminate.
    + constructor.
    + apply andb_prop in H as [H1 H2].
      change (@nil ascii) with (@nil ascii ++ []). constructor; auto.
    + apply orb_prop in H as [H | H]; [apply L_alt_l | apply L_alt_r]; auto.
    + constructor.
  - intros H. remember (@nil ascii) as s eqn:E.
    induction H; simpl; try discriminate; auto.
    + apply app_eq_nil in E as [E1 E2]. rewrite IHlang1, IHlang2; auto.
    + rewrite IHlang; auto.
    + rewrite IHlang; auto using orb_true_r.
Qed.

Lemma deriv_sound a r : forall s, lang ic (deriv ic a r) s -> lang ic r (a :: s).
Proof.
  induction r; simpl; intros s H.
  - inversion H.
  - inversion H.
  - destruct (char_eq ic c a) eqn:E; inversion H; subst. constructor; assumption.
  - destruct (in_class k a) eqn:E; inversion H; subst. constructor; assumption.
  - destruct (nullable r1) eqn:N.
    + inversion H; subst.
      * match goal with
        | [ H' : lang _ (Cat _ _) _ |- _ ] => inversion H'; subst
        end.
        change (a :: s1 ++ s2) with ((a :: s1) ++ s2). constructor; auto.
      * change (a :: s) with ([] ++ a :: s).
        constructor; [apply nullable_lang; assumption | auto].
    + inversion H; subst.
      change (a :: s1 ++ s2) with ((a :: s1) ++ s2). constructor; auto.
  - inversion H; subst; [apply L_alt_l | apply L_alt_r]; auto.
  - inversion H; subst.
    change (a :: s1 ++ s2) with ((a :: s1) ++ s2). apply L_star_cons; auto.
Qed.

Lemma deriv_complete a r s0 :
  lang ic r s0 -> forall t, s0 = a :: t -> lang ic (deriv ic a r) t.
Proof.
  induction 1; intros t E; simpl.
  - discriminate.
  - injection E as -> <-. rewrite H. constructor.
  - injection E as -> <-. rewrite H. constructor.
  - destruct s1 as [| b s1'].
    + simpl in E. subst s2.
      rewrite (proj2 (nullable_lang r1) H). apply L_alt_r. auto.
    + simpl in E. injection E as -> <-.
      destruct (nullable r1); [apply L_alt_l |]; constructor; auto.
  - apply L_alt_l; auto.
  - apply L_alt_r; auto.
  - discriminate.
  - destruct s1 as [| b s1'].
    + simpl in E. apply IHlang2 in E. exact E.
    + simpl in E. injection E as -> <-. constructor; auto.
Qed.

Lemma deriv_lang a r s : lang ic (deriv ic a r) s <-> lang ic r (a :: s).
Proof.
  split; [apply deriv_sound | intros H; eapply deriv_complete; eauto].
Qed.

(** [re.match] succeeds exactly when a prefix is in the language. *)
Lemma match_lang s : forall r,
  match_ ic r s = true <-> exists p q, s = p ++ q /\ lang ic r p.
Proof.
  induction s as [| a s IH]; intros r; simpl.
  - rewrite orb_false_r, nullable_lang. split.
    + intros H. exists [], []. auto.
    + intros (p & q & E & H). symmetry in E.
      apply app_eq_nil in E as [-> _]. assumption.
  - rewrite orb_true_iff, nullable_lang, IH. split.
    + intros [H | (p & q & E & H)].
      * exists [], (a :: s). auto.
      * exists (a :: p), q. subst s. split; [reflexivity | apply deriv_lang; assumption].
    + intros (p & q & E & H). destruct p as [| b p].
      * left; assumption.
      * right. simpl in E. injection E as <- ->.
        exists p, q. split; [reflexivity | apply deriv_lang; assumption].
Qed.

(** [re.search] succeeds exactly when a substring is in the language. *)
Lemma search_lang s : forall r,
  search ic r s = true <-> exists w, lang ic r w /\ contains s w.
Proof.
  induction s as [| a s IH]; intros r; cbn [search].
  - rewrite orb_false_r, match_lang. split.
    + intros (p & q & E & H). exists p. split; [assumption |]. exists [], q. assumption.
    + intros (w & H & pre & post & E). symmetry in E.
      apply app_eq_nil in E as [-> E]. apply app_eq_nil in E as [-> ->].
      exists [], []. auto.
  - rewrite orb_true_iff, match_lang, IH. split.
    + intros [(p & q & E & H) | (w & H & pre & post & E)].
      * exists p. split; [assumption |]. exists [], q. assumption.
      * exists w. split; [assumption |]. exists (a :: pre), post. rewrite E. reflexivity.
    + intros (w & H & pre & post & E). destruct pre as [| b pre].
      * left. exists w, post. auto.
      * right. simpl in E. injection E as <- ->.
        exists w. split; [assumption |]. exists pre, post. reflexivity.
Qed.

End Patterns.

Section RulePatterns.

Import Re.

Lemma char_eq_ci c x : char_eq true c x = true <-> lower c = lower x.
Proof. unfold char_eq. apply Ascii.eqb_eq. Qed.

Lemma lang_lits p : forall w, lang true (lits p) w <-> ci_equal p w.
Proof.
  unfold ci_equal. induction p as [| c p IH]; intros w; simpl; split; intros H.
  - inversion H. reflexivity.
  - destruct w; [constructor | discriminate].
  - inversion H as [ | | | r1 r2 s1 s2 H1 H2 | | | | ]; subst.
    inversion H1; subst. simpl. f_equal.
    + apply char_eq_ci; assumption.
    + apply IH; assumption.
  - destruct w as [| x w]; [discriminate |]. simpl in H. injection H as Hc Hw.
    change (x :: w) with ([x] ++ w). constructor.
    + constructor. apply char_eq_ci; assumption.
    + apply IH; assumption.
Qed.

Lemma lang_str s w : lang true (str s) w <-> ci_equal (chars s) w.
Proof. apply lang_lits. Qed.

Lemma lang_star_class ic k ws :
  lang ic (Star (Class k)) ws <-> Forall (fun x => in_class k x = true) ws.
Proof.
  split.
  - intros H. remember (Star (Class k)) as r eqn:E.
    induction H; try discriminate.
    + constructor.
    + injection E as ->. inversion H; subst. simpl. constructor; auto.
  - induction 1 as [| x ws Hx _ IH].
    + constructor.
    + change (x :: ws) with ([x] ++ ws). apply L_star_cons; [constructor |]; assumption.
Qed.

Lemma group_word_lang g :
  lang true (Alt (str "groep") (str "Group")) g <-> group_word g.
Proof.
  unfold group_word. split.
  - intros H. inversion H as [ | | | | r1 r2 s Hl | r1 r2 s Hr | | ]; subst.
    + left. apply lang_str. assumption.
    + right. apply lang_str in Hr. exact Hr.
  - intros [H | H]; [apply L_alt_l | apply L_alt_r]; apply lang_str; exact H.
Qed.

(** The pattern of a letter rule describes the phrases of that letter. *)
Lemma group_letter_lang letter w :
  lang true (group_letter letter) w <-> group_phrase letter w.
Proof.
  unfold group_letter, group_phrase. split.
  - intros H.
    inversion H as [ | | | r1 r2 g s2 Hg H2 | | | | ]; subst.
    inversion H2 as [ | | | r1 r2 ws s3 Hws H3 | | | | ]; subst.
    inversion H3; subst.
    exists g, ws, x. repeat split.
    + apply group_word_lang; assumption.
    + apply (lang_star_class true Space); assumption.
    + symmetry. apply char_eq_ci; assumption.
  - intros (g & ws & c & -> & Hg & Hws & Hc).
    constructor; [apply group_word_lang; assumption |].
    constructor; [apply (lang_star_class true Space); assumption |].
    constructor. apply char_eq_ci. symmetry; assumption.
Qed.

Lemma search_group_letter event letter :
  search true (group_letter letter) (text_of event) = true
  <-> has_group_phrase event letter.
Proof.
  rewrite search_lang. unfold has_group_phrase.
  split; intros (w & H & Hc); exists w; split; try assumption;
    apply group_letter_lang; assumption.
Qed.

Lemma search_str text p :
  search true (str p) text = true <-> contains_ci text p.
Proof.
  rewrite search_lang. unfold contains_ci.
  split; intros (w & H & Hc); exists w; split; try assumption;
    apply lang_str; assumption.
Qed.

(** "alle" never matches where "all" does not. *)
Lemma search_all text :
  search true (Alt (str "all") (str "alle")) text = true <-> contains_ci text "all".
Proof.
  rewrite search_lang. unfold contains_ci. split.
  - intros (w & H & pre & post & E). inversion H; subst.
    + exists w. split; [apply lang_str; assumption | exists pre, post; reflexivity].
    + match goal with
      | [ H' : lang _ (str "alle") _ |- _ ] => apply lang_str in H'; rename H' into Hw
      end.
      unfold ci_equal in Hw.
      destruct w as [| a [| b [| c [| d [| ? ?]]]]]; try discriminate.
      exists [a; b; c]. split.
      * unfold ci_equal. simpl in *. congruence.
      * exists pre, (d :: post). reflexivity.
  - intros (w & H & Hc). exists w. split; [| assumption].
    apply L_alt_l. apply lang_str. assumption.
Qed.

End RulePatterns.

(** ** The group classifier *)

Section Classifier.

Import Re.
Variable event : Event.

(** [detect_group] tries the seven rules in order. *)
Lemma detect_group_rules :
  detect_group event =
  if found event (group_letter "A") then "A"
  else if found event (group_letter "B") then "B"
  else if found event (group_letter "C") then "C"
  else if found event (group_letter "D") then "D"
  else if found event (group_letter "E") then "E"
  else if found event (Alt (str "all") (str "alle")) then "ALL"
  else if found event (str "{N/A}") then "NA"
  else "UNKNOWN".
Proof. reflexivity. Qed.

Lemma found_phrase letter :
  has_group_phrase event letter -> found event (group_letter letter) = true.
Proof. apply search_group_letter. Qed.

Lemma no_phrase_not_found letter :
  ~ has_group_phrase event letter -> found event (group_letter letter) = false.
Proof.
  intros H. destruct (found event (group_letter letter)) eqn:E; [| reflexivity].
  exfalso. apply H. apply search_group_letter. exact E.
Qed.

Lemma text_found p :
  contains_ci (text_of event) p -> found event (str p) = true.
Proof. apply search_str. Qed.

Lemma all_found :
  contains_ci (text_of event) "all" -> found event (Alt (str "all") (str "alle")) = true.
Proof. apply search_all. Qed.

Lemma no_text_not_found p :
  ~ contains_ci (text_of event) p -> found event (str p) = false.
Proof.
  intros H. destruct (found event (str p)) eqn:E; [| reflexivity].
  exfalso. apply H. apply search_str. exact E.
Qed.

Lemma no_all_not_found :
  ~ contains_ci (text_of event) "all" -> found event (Alt (str "all") (str "alle")) = false.
Proof.
  intros H. destruct (found event (Alt (str "all") (str "alle"))) eqn:E; [| reflexivity].
  exfalso. apply H. apply search_all. exact E.
Qed.

(** Once a letter phrase occurs in the text, a letter rule fires. *)
Lemma letter_rule_fires letter :
  In letter letters -> has_group_phrase event letter ->
  exists l, In l letters /\ has_group_phrase event l /\ detect_group event = label l.
Proof.
  intros Hin Hp. apply found_phrase in Hp. rewrite detect_group_rules.
  destruct (found event (group_letter "A")) eqn:EA;
    [exists "A"%char; repeat split;
       [simpl; tauto | apply search_group_letter; exact EA] |].
  destruct (found event (group_letter "B")) eqn:EB;
    [exists "B"%char; repeat split;
       [simpl; tauto | apply search_group_letter; exact EB] |].
  destruct (found event (group_letter "C")) eqn:EC;
    [exists "C"%char; repeat split;
       [simpl; tauto | apply search_group_letter; exact EC] |].
  destruct (found event (group_letter "D")) eqn:ED;
    [exists "D"%char; repeat split;
       [simpl; tauto | apply search_group_letter; exact ED] |].
  destruct (found event (group_letter "E")) eqn:EE;
    [exists "E"%char; repeat split;
       [simpl; tauto | apply search_group_letter; exact EE] |].
  exfalso. simpl in Hin.
  destruct Hin as [<- | [<- | [<- | [<- | [<- | []]]]]]; congruence.
Qed.

(** The first letter, in the order A to E, whose phrase occurs wins. *)
Lemma first_letter_wins letter :
  In letter letters -> has_group_phrase event letter ->
  (forall l, In l letters -> (code l < code letter)%nat -> ~ has_group_phrase event l) ->
  detect_group event = label letter.
Proof.
  intros Hin Hp Hfirst. apply found_phrase in Hp. rewrite detect_group_rules.
  assert (Hno : forall l, In l letters -> (code l < code letter)%nat ->
                          found event (group_letter l) = false)
    by (intros l Hl Hlt; apply no_phrase_not_found; auto).
  simpl in Hin.
  destruct Hin as [<- | [<- | [<- | [<- | [<- | []]]]]];
    repeat (rewrite Hno by first [solve [simpl; tauto] | solve [vm_compute; lia]]);
    rewrite Hp; reflexivity.
Qed.

(** Without any letter phrase, the last two rules and the default decide. *)
Lemma no_letter_rule :
  (forall l, In l letters -> ~ has_group_phrase event l) ->
  detect_group event =
  if found event (Alt (str "all") (str "alle")) then "ALL"
  else if found event (str "{N/A}") then "NA"
  else "UNKNOWN".
Proof.
  intros Hno. rewrite detect_group_rules.
  rewrite !no_phrase_not_found by (apply Hno; simpl; tauto). reflexivity.
Qed.

End Classifier.

(** C7. When the text of an occurrence contains a lettered group phrase
    (the word groep/group, optional whitespace, a letter A to E) and the
    token {N/A}, [detect_group] never answers NA: it answers the label of a
    letter whose phrase occurs in the text, namely the first such letter in
    the order A to E of the rule list. *)
Theorem letter_rules_precede_na (event : Event) (letter : ascii) :
  In letter letters ->
  has_group_phrase event letter ->
  contains_ci (text_of event) "{N/A}" ->
  detect_group event <> "NA" /\
  (exists l, In l letters /\ has_group_phrase event l /\ detect_group event = label l) /\
  ((forall l, In l letters -> (Re.code l < Re.code letter)%nat ->
              ~ has_group_phrase event l) ->
   detect_group event = label letter).
Proof.
  intros Hin Hp _. split; [| split].
  - destruct (letter_rule_fires event letter Hin Hp) as (l & Hl & _ & ->).
    simpl in Hl. destruct Hl as [<- | [<- | [<- | [<- | [<- | []]]]]]; discriminate.
  - apply (letter_rule_fires event letter Hin Hp).
  - apply first_letter_wins; assumption.
Qed.

Lemma letter_rules_precede_na_witness :
  In "A"%char letters /\
  has_group_phrase Sample.test1 "A" /\
  contains_ci (text_of Sample.test1) "{N/A}" /\
  detect_group Sample.test1 <> "NA" /\
  detect_group Sample.test1 = "A".
Proof.
  assert (H1 : In "A"%char letters) by (simpl; tauto).
  assert (H2 : has_group_phrase Sample.test1 "A")
    by (apply search_group_letter; vm_compute; reflexivity).
  assert (H3 : contains_ci (text_of Sample.test1) "{N/A}")
    by (apply search_str; vm_compute; reflexivity).
  destruct (letter_rules_precede_na Sample.test1 "A" H1 H2 H3) as (Hna & _ & Hfirst).
  split; [exact H1 | split; [exact H2 | split; [exact H3 | split; [exact Hna |]]]].
  apply Hfirst. intros l Hl Hlt. exfalso.
  simpl in Hl. destruct Hl as [<- | [<- | [<- | [<- | [<- | []]]]]];
    vm_compute in Hlt; lia.
Defined.

(** What [detect_group] does with the reverse phrasing: when the text
    contains a letter followed by groep/group but no phrase of the form
    groep/group + letter, it does not answer that letter; it answers ALL
    when the text contains "all", otherwise NA when it contains {N/A},
    otherwise UNKNOWN. *)
Theorem reverse_phrase_falls_through (event : Event) (letter : ascii) :
  In letter letters ->
  has_reverse_phrase event letter ->
  (forall l, In l letters -> ~ has_group_phrase event l) ->
  detect_group event <> label letter /\
  (contains_ci (text_of event) "all" -> detect_group event = "ALL") /\
  (~ contains_ci (text_of event) "all" ->
   contains_ci (text_of event) "{N/A}" -> detect_group event = "NA") /\
  (~ contains_ci (text_of event) "all" ->
   ~ contains_ci (text_of event) "{N/A}" -> detect_group event = "UNKNOWN").
Proof.
  intros Hin _ Hno. rewrite (no_letter_rule event Hno). repeat split.
  - simpl in Hin.
    destruct Hin as [<- | [<- | [<- | [<- | [<- | []]]]]];
      destruct (found event _); try discriminate;
      destruct (found event _); discriminate.
  - intros H. rewrite (all_found event H). reflexivity.
  - intros H1 H2. rewrite (no_all_not_found event H1), (text_found event _ H2).
    reflexivity.
  - intros H1 H2. rewrite (no_all_not_found event H1), (no_text_not_found event _ H2).
    reflexivity.
Qed.

Lemma no_group_phrase_in_reversed :
  forall l, In l letters -> ~ has_group_phrase Sample.reversed l.
Proof.
  intros l Hl H. apply search_group_letter in H. simpl in Hl.
  destruct Hl as [<- | [<- | [<- | [<- | [<- | []]]]]]; vm_compute in H; discriminate.
Defined.

Lemma reverse_phrase_in_reversed : has_reverse_phrase Sample.reversed "A".
Proof.
  exists (chars "A groep"). split.
  - exists "A"%char, [" "%char], (chars "groep"). repeat split.
    + left. reflexivity.
    + repeat constructor.
  - exists (chars "5417 - Werkzitting "), [" "%char]. reflexivity.
Defined.

Lemma reverse_phrase_falls_through_witness :
  In "A"%char letters /\
  has_reverse_phrase Sample.reversed "A" /\
  (forall l, In l letters -> ~ has_group_phrase Sample.reversed l) /\
  detect_group Sample.reversed <> "A".
Proof.
  assert (H1 : In "A"%char letters) by (simpl; tauto).
  split; [exact H1 |].
  split; [apply reverse_phrase_in_reversed |].
  split; [apply no_group_phrase_in_reversed |].
  apply (reverse_phrase_falls_through Sample.reversed "A" H1
             reverse_phrase_in_reversed no_group_phrase_in_reversed).
Defined.

(** C8. [detect_group] misses the reverse phrasing: the text
    "5417 - Werkzitting A groep" contains the reverse phrasing of A and no
    phrase of the form groep/group + letter, and [detect_group] classifies
    it UNKNOWN, not A; the classifier of the Google integration,
    [_extract_group_from_event], whose patterns include ([A-E])\s*groep and
    ([A-E])\s*group, returns A on the same text. *)
Lemma reverse_phrasing_is_unknown :
  has_reverse_phrase Sample.reversed "A" /\
  (forall l, In l letters -> ~ has_group_phrase Sample.reversed l) /\
  detect_group Sample.reversed = "UNKNOWN" /\
  detect_group Sample.reversed <> label "A" /\
  _extract_group_from_event Sample.reversed = Some "A".
Proof.
  split; [apply reverse_phrase_in_reversed |].
  split; [apply no_group_phrase_in_reversed |].
  split; [vm_compute; reflexivity |].
  split; [vm_compute; discriminate | vm_compute; reflexivity].
Qed.

(** ** The selector *)

Section Extremes.

Lemma fold_min_first xs : forall before best after,
  Forall (fun x => (start best < start x)%Z) before ->
  Forall (fun x => (start best <= start x)%Z) after ->
  first_min (before ++ best :: after ++ xs) (fold_left smaller xs best).
Proof.
  induction xs as [| y xs IH]; intros before best after Hb Ha; simpl.
  - rewrite app_nil_r. exists before, after. auto.
  - unfold smaller at 2. destruct (start y <? start best)%Z eqn:E.
    + apply Z.ltb_lt in E.
      replace (before ++ best :: after ++ y :: xs)
        with ((before ++ best :: after) ++ y :: [] ++ xs)
        by (rewrite <- app_assoc; reflexivity).
      apply IH; [| constructor].
      apply Forall_app. split; [| constructor].
      * eapply Forall_impl; [| exact Hb]. simpl. intros; lia.
      * lia.
      * eapply Forall_impl; [| exact Ha]. simpl. intros; lia.
    + apply Z.ltb_ge in E.
      replace (before ++ best :: after ++ y :: xs)
        with (before ++ best :: (after ++ [y]) ++ xs)
        by (rewrite <- (app_assoc after); reflexivity).
      apply IH; [assumption |].
      apply Forall_app. split; [assumption | constructor; [lia | constructor]].
Qed.

Lemma fold_max_first xs : forall before best after,
  Forall (fun x => (start x < start best)%Z) before ->
  Forall (fun x => (start x <= start best)%Z) after ->
  first_max (before ++ best :: after ++ xs) (fold_left greater xs best).
Proof.
  induction xs as [| y xs IH]; intros before best after Hb Ha; simpl.
  - rewrite app_nil_r. exists before, after. auto.
  - unfold greater at 2. destruct (start y >? start best)%Z eqn:E.
    + apply Z.gtb_lt in E.
      replace (before ++ best :: after ++ y :: xs)
        with ((before ++ best :: after) ++ y :: [] ++ xs)
        by (rewrite <- app_assoc; reflexivity).
      apply IH; [| constructor].
      apply Forall_app. split; [| constructor].
      * eapply Forall_impl; [| exact Hb]. simpl. intros; lia.
      * lia.
      * eapply Forall_impl; [| exact Ha]. simpl. intros; lia.
    + rewrite Z.gtb_ltb in E. apply Z.ltb_ge in E.
      replace (before ++ best :: after ++ y :: xs)
        with (before ++ best :: (after ++ [y]) ++ xs)
        by (rewrite <- (app_assoc after); reflexivity).
      apply IH; [assumption |].
      apply Forall_app. split; [assumption | constructor; [lia | constructor]].
Qed.

(** [min] returns the first candidate of smallest start. *)
Lemma py_min_first c cs :
  exists r, py_min start (c :: cs) = Returned r /\ first_min (c :: cs) r.
Proof.
  eexists. split; [reflexivity |].
  apply (fold_min_first cs [] c []); constructor.
Qed.

(** [max] returns the first candidate of greatest start. *)
Lemma py_max_first c cs :
  exists r, py_max start (c :: cs) = Returned r /\ first_max (c :: cs) r.
Proof.
  eexists. split; [reflexivity |].
  apply (fold_max_first cs [] c []); constructor.
Qed.

Lemma first_min_In c r : first_min c r -> In r c.
Proof. intros (b & a & -> & _). apply in_elt. Qed.

Lemma first_max_In c r : first_max c r -> In r c.
Proof. intros (b & a & -> & _). apply in_elt. Qed.

End Extremes.

Section Selector.

Variable cfg : Config.

Lemma labelled_pairs g events :
  map fst (filter (fun eg => String.eqb (snd eg) g)
                  (map (fun e => (e, detect_group e)) events))
  = labelled g events.
Proof.
  unfold labelled. induction events as [| e events IH]; simpl; [reflexivity |].
  destruct (String.eqb (detect_group e) g); simpl; congruence.
Qed.

Lemma all_pairs events :
  map fst (map (fun e => (e, detect_group e)) events) = events.
Proof. rewrite map_map. simpl. apply map_id. Qed.

Lemma labelled_In g events e :
  In e (labelled g events) <-> In e events /\ detect_group e = g.
Proof. unfold labelled. rewrite filter_In, String.eqb_eq. tauto. Qed.

Lemma labelled_nil g events :
  labelled g events = [] <-> forall e, In e events -> detect_group e <> g.
Proof.
  split.
  - intros H e He Hg.
    assert (Hin : In e (labelled g events)) by (apply labelled_In; auto).
    rewrite H in Hin. exact Hin.
  - intros H. destruct (labelled g events) as [| e l] eqn:E; [reflexivity |].
    assert (Hin : In e (labelled g events)) by (rewrite E; left; reflexivity).
    apply labelled_In in Hin as [He Hg]. exfalso. exact (H e He Hg).
Qed.

(** The candidates, in terms of the labelled members. *)
Lemma candidates_by_label events :
  events_to_choose_from cfg events =
  match labelled (preferred cfg) events with
  | _ :: _ => labelled (preferred cfg) events
  | [] =>
      if is_str (fallback_group_behavior cfg) "use_all_if_missing" then
        match labelled "ALL" events with
        | [] => events
        | _ :: _ => labelled "ALL" events
        end
      else events
  end.
Proof.
  unfold events_to_choose_from, preferred. cbv zeta.
  rewrite !labelled_pairs, all_pairs.
  destruct (labelled (get (preferred_group cfg) "A") events); [| reflexivity].
  destruct (is_str _ _); [| reflexivity].
  destruct (labelled "ALL" events); reflexivity.
Qed.

Lemma candidates_incl events e :
  In e (events_to_choose_from cfg events) -> In e events.
Proof.
  rewrite candidates_by_label.
  destruct (labelled (preferred cfg) events) as [| p ps] eqn:Ep.
  - destruct (is_str _ _); [| auto].
    destruct (labelled "ALL" events) as [| a l] eqn:Ea; [auto |].
    rewrite <- Ea. intros H. apply labelled_In in H. tauto.
  - rewrite <- Ep. intros H. apply labelled_In in H. tauto.
Qed.

Lemma candidates_nonempty events :
  events <> [] -> events_to_choose_from cfg events <> [].
Proof.
  intros Hne. rewrite candidates_by_label.
  destruct (labelled (preferred cfg) events) as [| p ps]; [| discriminate].
  destruct (is_str _ _); [| assumption].
  destruct (labelled "ALL" events); [assumption | discriminate].
Qed.

(** What the selector returns, by tie-break. *)
Lemma select_by_mode events code :
  events <> [] ->
  exists r,
    select_optimal_event cfg events code = Returned (Some r) /\
    In r (events_to_choose_from cfg events) /\
    (mode cfg = "earliest_lesson" -> first_min (events_to_choose_from cfg events) r) /\
    (mode cfg = "latest_lesson" -> first_max (events_to_choose_from cfg events) r) /\
    (mode cfg <> "earliest_lesson" -> mode cfg <> "latest_lesson" ->
     exists rest, events_to_choose_from cfg events = r :: rest).
Proof.
  intros Hne. pose proof (candidates_nonempty events Hne) as Hc.
  unfold select_optimal_event. fold (mode cfg).
  destruct events as [| e0 events']; [congruence |].
  destruct (events_to_choose_from cfg (e0 :: events')) as [| c cs]; [congruence |].
  destruct (String.eqb (mode cfg) "earliest_lesson") eqn:E1.
  - apply String.eqb_eq in E1.
    destruct (py_min_first c cs) as (r & -> & Hr). exists r. cbn [bind].
    split; [reflexivity |]. split; [apply first_min_In; assumption |].
    split; [auto |]. split; [rewrite E1; discriminate | congruence].
  - apply String.eqb_neq in E1.
    destruct (String.eqb (mode cfg) "latest_lesson") eqn:E2.
    + apply String.eqb_eq in E2.
      destruct (py_max_first c cs) as (r & -> & Hr). exists r. cbn [bind].
      split; [reflexivity |]. split; [apply first_max_In; assumption |].
      split; [congruence |]. split; [auto | congruence].
    + apply String.eqb_neq in E2. exists c. cbn [bind getitem0].
      split; [reflexivity |]. split; [left; reflexivity |].
      split; [congruence |]. split; [congruence |].
      intros _ _. exists cs. reflexivity.
Qed.

End Selector.

Lemma no_preferred_candidates (cfg : Config) (events : list Event) :
  (forall e, In e events -> detect_group e <> preferred cfg) ->
  events_to_choose_from cfg events =
  if is_str (fallback_group_behavior cfg) "use_all_if_missing" then
    match labelled "ALL" events with
    | [] => events
    | _ :: _ => labelled "ALL" events
    end
  else events.
Proof.
  intros Hno. rewrite candidates_by_label.
  rewrite (proj2 (labelled_nil (preferred cfg) events) Hno). reflexivity.
Qed.

Lemma fallback_irrelevant_unless_use_all (cfg : Config) (v w : option string) events :
  is_str v "use_all_if_missing" = false ->
  is_str w "use_all_if_missing" = false ->
  events_to_choose_from (with_fallback v cfg) events
  = events_to_choose_from (with_fallback w cfg) events.
Proof.
  intros Hv Hw. rewrite !candidates_by_label.
  change (preferred (with_fallback v cfg)) with (preferred cfg).
  change (preferred (with_fallback w cfg)) with (preferred cfg).
  change (fallback_group_behavior (with_fallback v cfg)) with v.
  change (fallback_group_behavior (with_fallback w cfg)) with w.
  rewrite Hv, Hw. reflexivity.
Qed.

Lemma with_fallback_same (cfg : Config) :
  with_fallback (fallback_group_behavior cfg) cfg = cfg.
Proof. destruct cfg; reflexivity. Qed.

(** C1. Whenever some member of the cluster is classified as the preferred
    group, the selector returns a member of the cluster with that
    classification, whatever the fallback behaviour and the tie-break. *)
Theorem preferred_group_selected (cfg : Config) (events : list Event) (code : string) :
  (exists e, In e events /\ detect_group e = preferred cfg) ->
  exists r,
    select_optimal_event cfg events code = Returned (Some r) /\
    In r events /\ detect_group r = preferred cfg.
Proof.
  intros (e & He & Hg).
  assert (Hne : events <> []) by (intros ->; exact He).
  destruct (select_by_mode cfg events code Hne) as (r & Hsel & Hin & _).
  exists r. split; [exact Hsel |].
  rewrite candidates_by_label in Hin.
  destruct (labelled (preferred cfg) events) as [| p ps] eqn:Ep.
  - exfalso. apply (proj1 (labelled_nil _ _) Ep e He Hg).
  - rewrite <- Ep in Hin. apply labelled_In in Hin. exact Hin.
Qed.

Lemma preferred_group_selected_witness :
  (exists e, In e [Sample.test2; Sample.test1] /\
             detect_group e = preferred (_load_config None)) /\
  exists r,
    select_optimal_event (_load_config None) [Sample.test2; Sample.test1] "5417"
    = Returned (Some r) /\
    In r [Sample.test2; Sample.test1] /\
    detect_group r = preferred (_load_config None).
Proof.
  assert (H : exists e, In e [Sample.test2; Sample.test1] /\
                        detect_group e = preferred (_load_config None)).
  { exists Sample.test1. split; [simpl; tauto | vm_compute; reflexivity]. }
  split; [exact H |].
  exact (preferred_group_selected (_load_config None)
           [Sample.test2; Sample.test1] "5417" H).
Defined.

(** C2. In a non-empty cluster without any member of the preferred group:
    under use_all_if_missing the candidates are the members labelled ALL
    when there is one (and the selected occurrence is then labelled ALL),
    and all the members when there is none; under any other fallback value,
    use_any_if_missing among them, the candidates are all the members at
    once. *)
Theorem fallback_candidates (cfg : Config) (events : list Event) (code : string) :
  events <> [] ->
  (forall e, In e events -> detect_group e <> preferred cfg) ->
  (fallback_group_behavior cfg = Some "use_all_if_missing" ->
   ((exists e, In e events /\ detect_group e = "ALL") ->
    events_to_choose_from cfg events = labelled "ALL" events /\
    exists r,
      select_optimal_event cfg events code = Returned (Some r) /\
      In r events /\ detect_group r = "ALL") /\
   ((forall e, In e events -> detect_group e <> "ALL") ->
    events_to_choose_from cfg events = events)) /\
  (forall v, fallback_group_behavior cfg = Some v -> v <> "use_all_if_missing" ->
             events_to_choose_from cfg events = events).
Proof.
  intros Hne Hno. pose proof (no_preferred_candidates cfg events Hno) as Hc.
  split.
  - intros Hfb. rewrite Hfb in Hc. simpl in Hc. split.
    + intros (e & He & Hg).
      assert (Hall : events_to_choose_from cfg events = labelled "ALL" events).
      { rewrite Hc. destruct (labelled "ALL" events) as [| a l] eqn:Ea; [| reflexivity].
        exfalso. apply (proj1 (labelled_nil _ _) Ea e He Hg). }
      split; [exact Hall |].
      destruct (select_by_mode cfg events code Hne) as (r & Hsel & Hin & _).
      exists r. split; [exact Hsel |].
      rewrite Hall in Hin. apply labelled_In in Hin. exact Hin.
    + intros Hnone. rewrite Hc.
      rewrite (proj2 (labelled_nil "ALL" events) Hnone). reflexivity.
  - intros v Hfb Hv. rewrite Hfb in Hc. simpl in Hc.
    apply String.eqb_neq in Hv. rewrite Hv in Hc. exact Hc.
Qed.

Lemma no_group_a_in_5419 (fallback mode : option string) :
  forall e, In e [Sample.b_early; Sample.all_late] ->
            detect_group e <> preferred (Sample.config_file fallback mode).
Proof.
  intros e [<- | [<- | []]]; vm_compute; discriminate.
Defined.

Lemma fallback_candidates_witness :
  [Sample.b_early; Sample.all_late] <> [] /\
  (forall e, In e [Sample.b_early; Sample.all_late] ->
             detect_group e <> preferred (Sample.config_file (Some "use_all_if_missing") None)) /\
  events_to_choose_from (Sample.config_file (Some "use_all_if_missing") None)
    [Sample.b_early; Sample.all_late]
  = labelled "ALL" [Sample.b_early; Sample.all_late].
Proof.
  assert (H1 : [Sample.b_early; Sample.all_late] <> []) by discriminate.
  split; [exact H1 |]. split; [apply no_group_a_in_5419 |].
  destruct (fallback_candidates (Sample.config_file (Some "use_all_if_missing") None)
              [Sample.b_early; Sample.all_late] "5419" H1
              (no_group_a_in_5419 _ _)) as [Huse _].
  destruct (Huse eq_refl) as [Hall _].
  apply Hall. exists Sample.all_late. split; [simpl; tauto | vm_compute; reflexivity].
Defined.

(** C3. On the candidates of a non-empty cluster the selector returns:
    under earliest_lesson the first candidate of smallest start (every
    candidate before it starts strictly later, none after it starts
    earlier), under latest_lesson the first candidate of greatest start, and
    under any other mode the first candidate. *)
Theorem tie_break (cfg : Config) (events : list Event) (code : string) :
  events <> [] ->
  events_to_choose_from cfg events <> [] /\
  exists r,
    select_optimal_event cfg events code = Returned (Some r) /\
    (mode cfg = "earliest_lesson" -> first_min (events_to_choose_from cfg events) r) /\
    (mode cfg = "latest_lesson" -> first_max (events_to_choose_from cfg events) r) /\
    (mode cfg <> "earliest_lesson" -> mode cfg <> "latest_lesson" ->
     exists rest, events_to_choose_from cfg events = r :: rest).
Proof.
  intros Hne. split; [apply candidates_nonempty; assumption |].
  destruct (select_by_mode cfg events code Hne) as (r & Hsel & _ & Hrest).
  exists r. split; assumption.
Qed.

Lemma tie_break_witness :
  [Sample.test2; Sample.test1] <> [] /\
  events_to_choose_from (Sample.config_file None (Some "latest_lesson"))
    [Sample.test2; Sample.test1] <> [] /\
  exists r,
    select_optimal_event (Sample.config_file None (Some "latest_lesson"))
      [Sample.test2; Sample.test1] "5417" = Returned (Some r).
Proof.
  assert (H1 : [Sample.test2; Sample.test1] <> []) by discriminate.
  split; [exact H1 |].
  destruct (tie_break (Sample.config_file None (Some "latest_lesson"))
              [Sample.test2; Sample.test1] "5417" H1) as (Hc & r & Hsel & _).
  split; [exact Hc |]. exists r. exact Hsel.
Defined.

(** C5, as the code has it. The selector is total over every list and
    raises nothing: it returns None exactly when the list is empty, and a
    member of the list otherwise. *)
Theorem selector_total (cfg : Config) (events : list Event) (code : string) :
  exists r,
    select_optimal_event cfg events code = Returned r /\
    (r = None <-> events = []) /\
    (forall e, r = Some e -> In e events).
Proof.
  destruct events as [| e0 events'].
  - exists None. split; [reflexivity |]. split; [tauto | discriminate].
  - destruct (select_by_mode cfg (e0 :: events') code) as (r & Hsel & Hin & _);
      [discriminate |].
    exists (Some r). split; [exact Hsel |]. split.
    + split; discriminate.
    + intros e [= <-]. apply (candidates_incl cfg). exact Hin.
Qed.

(** C5 as stated fails: on the empty list the selector returns None; no
    exception is raised. *)
Lemma empty_cluster_returns_none :
  select_optimal_event (_load_config None) [] "5417" = Returned None /\
  forall exc, select_optimal_event (_load_config None) [] "5417" <> Raised exc.
Proof. split; [reflexivity | discriminate]. Qed.

(** C10. When the configuration has no fallback_group_behavior entry and the
    cluster has no member of the preferred group, the candidates are all the
    members at once and the selection is the one made under
    use_any_if_missing; under use_all_if_missing the candidates would be the
    members labelled ALL, a different list as soon as the cluster has both
    a member labelled ALL and one that is not. *)
Theorem missing_fallback_key (cfg : Config) (events : list Event) (code : string) :
  fallback_group_behavior cfg = None ->
  events <> [] ->
  (forall e, In e events -> detect_group e <> preferred cfg) ->
  events_to_choose_from cfg events = events /\
  select_optimal_event cfg events code
  = select_optimal_event (with_fallback (Some "use_any_if_missing") cfg) events code /\
  ((exists e, In e events /\ detect_group e = "ALL") ->
   (exists e, In e events /\ detect_group e <> "ALL") ->
   events_to_choose_from (with_fallback (Some "use_all_if_missing") cfg) events
   = labelled "ALL" events /\
   events_to_choose_from cfg events
   <> events_to_choose_from (with_fallback (Some "use_all_if_missing") cfg) events).
Proof.
  intros Hfb Hne Hno.
  assert (Hc : events_to_choose_from cfg events = events).
  { rewrite (no_preferred_candidates cfg events Hno), Hfb. reflexivity. }
  split; [exact Hc |]. split.
  - assert (Hsame : events_to_choose_from (with_fallback (Some "use_any_if_missing") cfg) events
                    = events_to_choose_from cfg events).
    { rewrite <- (with_fallback_same cfg) at 2. rewrite Hfb.
      apply fallback_irrelevant_unless_use_all; reflexivity. }
    unfold select_optimal_event. rewrite Hsame. reflexivity.
  - intros (a & Ha & Hga) (b & Hb & Hgb).
    assert (Hall : events_to_choose_from (with_fallback (Some "use_all_if_missing") cfg) events
                   = labelled "ALL" events).
    { rewrite no_preferred_candidates by exact Hno. simpl.
      destruct (labelled "ALL" events) as [| x l] eqn:Ea; [| reflexivity].
      exfalso. apply (proj1 (labelled_nil _ _) Ea a Ha Hga). }
    split; [exact Hall |].
    rewrite Hc, Hall. intros Heq.
    rewrite Heq in Hb. apply labelled_In in Hb. tauto.
Qed.

Lemma missing_fallback_key_witness :
  fallback_group_behavior (Sample.config_file None None) = None /\
  [Sample.b_early; Sample.all_late] <> [] /\
  (forall e, In e [Sample.b_early; Sample.all_late] ->
             detect_group e <> preferred (Sample.config_file None None)) /\
  events_to_choose_from (Sample.config_file None None) [Sample.b_early; Sample.all_late]
  = [Sample.b_early; Sample.all_late].
Proof.
  assert (H1 : [Sample.b_early; Sample.all_late] <> []) by discriminate.
  split; [reflexivity |]. split; [exact H1 |]. split; [apply no_group_a_in_5419 |].
  apply (missing_fallback_key (Sample.config_file None None)
           [Sample.b_early; Sample.all_late] "5419" eq_refl H1
           (no_group_a_in_5419 _ _)).
Defined.

(** ** The course grouper *)

Section Groups.

Import Re.
Variables (ic : bool) (rest : regex).

Lemma match_group1_some s : forall g p,
  match_group1 ic g rest s = Some p ->
  exists q, s = p ++ q /\ lang ic g p /\ match_ ic rest q = true.
Proof.
  induction s as [| a s IH]; intros g p; cbn [match_group1].
  - destruct (nullable g && match_ ic rest []) eqn:E; [| discriminate].
    intros [= <-]. apply andb_prop in E as [Hn Hm].
    exists []. repeat split; [apply nullable_lang |]; assumption.
  - destruct (match_group1 ic (deriv ic a g) rest s) as [p0 |] eqn:Er.
    + intros [= <-]. destruct (IH _ _ Er) as (q & -> & Hl & Hm).
      exists q. repeat split; [apply deriv_lang |]; assumption.
    + destruct (nullable g && match_ ic rest (a :: s)) eqn:E; [| discriminate].
      intros [= <-]. apply andb_prop in E as [Hn Hm].
      exists (a :: s). repeat split; [apply nullable_lang |]; assumption.
Qed.

Lemma match_group1_none s : forall g,
  match_group1 ic g rest s = None ->
  forall p q, s = p ++ q -> lang ic g p -> match_ ic rest q = false.
Proof.
  induction s as [| a s IH]; intros g; cbn [match_group1].
  - destruct (nullable g && match_ ic rest []) eqn:E; [discriminate |].
    intros _ p q Es Hl. symmetry in Es. apply app_eq_nil in Es as [-> ->].
    apply nullable_lang in Hl. rewrite Hl in E. exact E.
  - destruct (match_group1 ic (deriv ic a g) rest s) as [p0 |] eqn:Er; [discriminate |].
    destruct (nullable g && match_ ic rest (a :: s)) eqn:E; [discriminate |].
    intros _ p q Es Hl. destruct p as [| b p].
    + simpl in Es. subst q. apply nullable_lang in Hl. rewrite Hl in E. exact E.
    + simpl in Es. injection Es as <- ->.
      apply (IH _ Er p q eq_refl). apply deriv_lang. assumption.
Qed.

(** The group is the longest prefix that lets the rest match. *)
Lemma match_group1_longest s : forall g p,
  match_group1 ic g rest s = Some p ->
  forall p' q', s = p' ++ q' -> lang ic g p' -> match_ ic rest q' = true ->
                (List.length p' <= List.length p)%nat.
Proof.
  induction s as [| a s IH]; intros g p; cbn [match_group1].
  - intros _ p' q' Es _ _. symmetry in Es. apply app_eq_nil in Es as [-> _].
    simpl. lia.
  - destruct (match_group1 ic (deriv ic a g) rest s) as [p0 |] eqn:Er.
    + intros [= <-] p' q' Es Hl Hm. destruct p' as [| b p']; [simpl; lia |].
      simpl in Es. injection Es as <- ->. simpl.
      apply le_n_S. apply (IH _ _ Er p' q' eq_refl); [apply deriv_lang |]; assumption.
    + intros _ p' q' Es Hl Hm. destruct p' as [| b p']; [simpl; lia |].
      simpl in Es. injection Es as <- ->. exfalso.
      rewrite (match_group1_none _ _ Er p' q' eq_refl) in Hm; [discriminate |].
      apply deriv_lang. assumption.
Qed.

End Groups.

Section CourseCode.

Import Re.

Lemma lang_digits p : lang false course_digits p <-> p <> [] /\ all_digit p.
Proof.
  unfold course_digits, plus, all_digit. split.
  - intros H. inversion H as [ | | | r1 r2 s1 s2 H1 H2 | | | | ]; subst.
    inversion H1; subst. split; [discriminate |].
    constructor; [assumption |]. apply (lang_star_class false Digit). assumption.
  - intros [Hne Hd]. destruct p as [| x p]; [congruence |].
    apply Forall_cons_iff in Hd as [Hx Hp].
    change (x :: p) with ([x] ++ p). constructor.
    + constructor. assumption.
    + apply (lang_star_class false Digit). assumption.
Qed.

Lemma match_dash q :
  match_ false course_dash q = true
  <-> exists ws rest, q = ws ++ "-"%char :: rest /\ all_space ws.
Proof.
  rewrite match_lang. unfold course_dash, all_space. split.
  - intros (p & q' & -> & H).
    inversion H as [ | | | r1 r2 ws s2 Hws H2 | | | | ]; subst.
    inversion H2 as [ | | | r1 r2 d ws' Hd Hws' | | | | ]; subst.
    inversion Hd as [ | c x Hx | | | | | | ]; subst.
    apply Ascii.eqb_eq in Hx. subst x.
    exists ws, (ws' ++ q'). split.
    + rewrite <- !app_assoc. reflexivity.
    + apply (lang_star_class false Space). assumption.
  - intros (ws & rest & -> & Hws).
    exists (ws ++ ["-"%char] ++ []), rest. split.
    + rewrite <- !app_assoc. reflexivity.
    + constructor; [apply (lang_star_class false Space); assumption |].
      constructor; [constructor; reflexivity | constructor].
Qed.

Lemma space_not_digit c : is_space c = true -> is_digit c = false.
Proof.
  destruct c as [[|] [|] [|] [|] [|] [|] [|] [|]]; vm_compute; congruence.
Qed.

(** What follows the digits starts with a character that is no digit. *)
Lemma dash_not_digit ws rest :
  all_space ws ->
  exists c t, ws ++ "-"%char :: rest = c :: t /\ is_digit c = false.
Proof.
  intros H. destruct H as [| x ws Hx _].
  - exists "-"%char, rest. split; reflexivity.
  - exists x, (ws ++ "-"%char :: rest). split; [reflexivity | apply space_not_digit; exact Hx].
Qed.

Lemma digit_run_unique ds : forall ds' r r',
  all_digit ds -> all_digit ds' ->
  (exists c t, r = c :: t /\ is_digit c = false) ->
  (exists c t, r' = c :: t /\ is_digit c = false) ->
  ds ++ r = ds' ++ r' -> ds = ds'.
Proof.
  unfold all_digit.
  induction ds as [| d ds IH]; intros ds' r r' Hd Hd' Hr Hr' E.
  - destruct ds' as [| d' ds']; [reflexivity |]. exfalso.
    destruct Hr as (c & t & -> & Hc). simpl in E. injection E as -> _.
    apply Forall_cons_iff in Hd' as [Hd' _]. congruence.
  - destruct ds' as [| d' ds'].
    + exfalso. destruct Hr' as (c & t & -> & Hc). simpl in E. injection E as -> _.
      apply Forall_cons_iff in Hd as [Hd _]. congruence.
    + simpl in E. injection E as -> E.
      apply Forall_cons_iff in Hd as [_ Hd]. apply Forall_cons_iff in Hd' as [_ Hd'].
      f_equal. apply (IH ds' r r'); assumption.
Qed.

(** The group of a successful match is a leading code of the title. *)
Lemma matched_is_leading title p :
  match_group1 false course_digits course_dash title = Some p -> leading_code title p.
Proof.
  intros H. apply match_group1_some in H as (q & -> & Hl & Hm).
  apply lang_digits in Hl as [Hne Hd]. apply match_dash in Hm as (ws & rest & -> & Hws).
  exists ws, rest. auto.
Qed.

(** A title with a leading code is matched, with that code as the group. *)
Lemma leading_is_matched title ds :
  leading_code title ds ->
  match_group1 false course_digits course_dash title = Some ds.
Proof.
  intros (ws & rest & -> & Hne & Hd & Hws).
  destruct (match_group1 false course_digits course_dash (ds ++ ws ++ "-"%char :: rest))
    as [p |] eqn:E.
  - f_equal. pose proof (matched_is_leading _ _ E) as (ws' & rest' & E' & _ & Hd' & Hws').
    eapply digit_run_unique; [exact Hd' | exact Hd | | | symmetry; exact E'];
      apply dash_not_digit; assumption.
  - exfalso.
    assert (Hm : match_ false course_dash (ws ++ "-"%char :: rest) = false).
    { apply (match_group1_none _ _ _ _ E ds _ eq_refl). apply lang_digits. auto. }
    assert (Ht : match_ false course_dash (ws ++ "-"%char :: rest) = true)
      by (apply match_dash; eauto).
    congruence.
Qed.

Lemma course_code_leading event ds :
  leading_code (chars (name event)) ds -> course_code event = string_of_list_ascii ds.
Proof.
  intros H. unfold course_code. fold (chars (name event)).
  rewrite (leading_is_matched _ _ H). reflexivity.
Qed.

Lemma course_code_unknown event :
  (forall ds, ~ leading_code (chars (name event)) ds) -> course_code event = "UNKNOWN".
Proof.
  intros H. unfold course_code. fold (chars (name event)).
  destruct (match_group1 false course_digits course_dash (chars (name event)))
    as [p |] eqn:E; [| reflexivity].
  exfalso. exact (H p (matched_is_leading _ _ E)).
Qed.

(** A digit run is never the sentinel. *)
Lemma digits_not_unknown ds :
  ds <> [] -> all_digit ds -> string_of_list_ascii ds <> "UNKNOWN".
Proof.
  intros Hne Hd E. destruct ds as [| d ds]; [congruence |].
  apply Forall_cons_iff in Hd as [Hd _]. simpl in E. injection E as -> _.
  vm_compute in Hd. discriminate.
Qed.

End CourseCode.

Section FirstSeen.

Lemma first_seen_In k l : In k (first_seen l) <-> In k l.
Proof.
  induction l as [| a l IH]; simpl; [tauto |].
  rewrite filter_In, IH, negb_true_iff.
  destruct (String.eqb_spec k a) as [-> | Hne]; split; auto.
  - intros [H | [H _]]; auto.
  - intros [H | H]; [congruence | auto].
Qed.

Lemma first_seen_NoDup l : NoDup (first_seen l).
Proof.
  induction l as [| a l IH]; simpl; constructor.
  - rewrite filter_In, String.eqb_refl. intros [_ H]. discriminate.
  - apply NoDup_filter. assumption.
Qed.

Lemma first_seen_snoc_notin k l :
  ~ In k l -> first_seen (l ++ [k]) = first_seen l ++ [k].
Proof.
  induction l as [| a l IH]; simpl; [reflexivity |]. intros H.
  rewrite IH by tauto. rewrite filter_app. simpl.
  destruct (String.eqb_spec k a) as [-> | Hne]; [tauto | reflexivity].
Qed.

Lemma first_seen_snoc_in k l : In k l -> first_seen (l ++ [k]) = first_seen l.
Proof.
  induction l as [| a l IH]; simpl; [tauto |]. intros H.
  destruct (in_dec string_dec k l) as [Hin | Hout].
  - rewrite IH by assumption. reflexivity.
  - destruct H as [-> | H]; [| contradiction].
    rewrite first_seen_snoc_notin by assumption.
    rewrite filter_app. simpl. rewrite String.eqb_refl. simpl.
    rewrite app_nil_r. reflexivity.
Qed.

(** Appending to the entry of a key that is present. *)
Lemma dict_append_present (M : string -> list Event) k x keys :
  NoDup keys -> In k keys ->
  dict_append k x (map (fun k' => (k', M k')) keys)
  = map (fun k' => (k', if String.eqb k k' then M k' ++ [x] else M k')) keys.
Proof.
  induction keys as [| a keys IH]; simpl; [tauto |].
  intros Hnd Hin. apply NoDup_cons_iff in Hnd as [Ha Hnd].
  destruct (String.eqb_spec k a) as [-> | Hne].
  - f_equal. apply map_ext_in. intros k' Hk'.
    destruct (String.eqb_spec a k') as [-> | _]; [contradiction | reflexivity].
  - f_equal. apply IH; [assumption |]. destruct Hin; [congruence | assumption].
Qed.

(** Appending under a key that is absent adds the entry last. *)
Lemma dict_append_absent (M : string -> list Event) k x keys :
  ~ In k keys ->
  dict_append k x (map (fun k' => (k', M k')) keys)
  = map (fun k' => (k', M k')) keys ++ [(k, [x])].
Proof.
  induction keys as [| a keys IH]; simpl; [reflexivity |].
  intros Hout. destruct (String.eqb_spec k a) as [-> | Hne]; [tauto |].
  f_equal. apply IH. tauto.
Qed.

Lemma members_of_snoc k pre x :
  members_of k (pre ++ [x])
  = members_of k pre ++ (if String.eqb (course_code x) k then [x] else []).
Proof. unfold members_of. rewrite filter_app. reflexivity. Qed.

Lemma members_of_absent k events :
  ~ In k (map course_code events) -> members_of k events = [].
Proof.
  unfold members_of. induction events as [| e events IH]; simpl; [reflexivity |].
  intros H. destruct (String.eqb_spec (course_code e) k) as [E | _]; [tauto |].
  apply IH. tauto.
Qed.

(** One iteration of the loop of [group_events_by_course]. *)
Lemma grouped_step pre x :
  dict_append (course_code x) x (grouped pre) = grouped (pre ++ [x]).
Proof.
  unfold grouped. rewrite map_app. simpl.
  destruct (in_dec string_dec (course_code x) (map course_code pre)) as [Hin | Hout].
  - rewrite first_seen_snoc_in by assumption.
    rewrite dict_append_present
      by (try apply first_seen_NoDup; apply first_seen_In; assumption).
    apply map_ext. intros k. rewrite members_of_snoc.
    destruct (String.eqb (course_code x) k); [reflexivity | rewrite app_nil_r; reflexivity].
  - rewrite first_seen_snoc_notin by assumption.
    rewrite dict_append_absent by (rewrite first_seen_In; assumption).
    rewrite map_app. simpl. f_equal.
    + apply map_ext_in. intros k Hk. rewrite members_of_snoc.
      destruct (String.eqb_spec (course_code x) k) as [E | _].
      * exfalso. apply Hout. rewrite E. apply first_seen_In. assumption.
      * rewrite app_nil_r. reflexivity.
    + rewrite members_of_snoc, String.eqb_refl, members_of_absent by assumption.
      reflexivity.
Qed.

Lemma group_events_from pre events :
  fold_left (fun course_groups event =>
               dict_append (course_code event) event course_groups)
            events (grouped pre)
  = grouped (pre ++ events).
Proof.
  revert pre. induction events as [| x events IH]; intros pre; simpl.
  - rewrite app_nil_r. reflexivity.
  - rewrite grouped_step, IH, <- app_assoc. reflexivity.
Qed.

(** The dictionary [group_events_by_course] builds. *)
Lemma group_events_by_course_grouped events :
  group_events_by_course events = grouped events.
Proof. exact (group_events_from [] events). Qed.

End FirstSeen.

(** C9. [group_events_by_course] keys each occurrence by the digit run that
    opens its title when optional whitespace and a dash follow it, the run
    being kept as text; a title without such an opening is keyed "UNKNOWN",
    which no digit run equals. The dictionary lists the distinct keys in
    first-seen order, each with its members in feed order. *)
Theorem course_grouper (events : list Event) :
  group_events_by_course events
  = map (fun k => (k, members_of k events)) (first_seen (map course_code events)) /\
  (forall e, In e events ->
             exists members,
               In (course_code e, members) (group_events_by_course events) /\
               In e members) /\
  (forall e ds, leading_code (chars (name e)) ds ->
                course_code e = string_of_list_ascii ds /\ course_code e <> "UNKNOWN") /\
  (forall e, (forall ds, ~ leading_code (chars (name e)) ds) ->
             course_code e = "UNKNOWN").
Proof.
  split; [apply group_events_by_course_grouped |].
  split; [| split].
  - intros e He. rewrite group_events_by_course_grouped.
    exists (members_of (course_code e) events). split.
    + unfold grouped.
      apply (in_map (fun k => (k, members_of k events))).
      apply first_seen_In. apply in_map. assumption.
    + unfold members_of. apply filter_In. split; [assumption | apply String.eqb_refl].
  - intros e ds H. rewrite (course_code_leading e ds H).
    split; [reflexivity |].
    destruct H as (ws & rest & _ & Hne & Hd & _). apply digits_not_unknown; assumption.
  - apply course_code_unknown.
Qed.

Lemma course_grouper_witness :
  leading_code (chars (name Sample.test1)) (chars "5417") /\
  course_code Sample.test1 = "5417" /\
  map fst (group_events_by_course [Sample.test1; Sample.test3; Sample.test2])
  = ["5417"; "5418"].
Proof.
  assert (H : leading_code (chars (name Sample.test1)) (chars "5417")).
  { exists [" "%char], (chars " Algemene economie - Werkzitting 1HW A").
    split; [reflexivity |]. split; [discriminate |]. split; repeat constructor. }
  destruct (course_grouper [Sample.test1; Sample.test3; Sample.test2])
    as (Hg & _ & Hcode & _).
  split; [exact H |]. split.
  - exact (proj1 (Hcode Sample.test1 (chars "5417") H)).
  - rewrite Hg. vm_compute. reflexivity.
Defined.

(** ** The pipeline *)

Section Pipeline.

Variable cfg : Config.

Lemma members_of_In k events e :
  In e (members_of k events) <-> In e events /\ course_code e = k.
Proof. unfold members_of. rewrite filter_In, String.eqb_eq. tauto. Qed.

Lemma members_of_present k events :
  In k (map course_code events) -> members_of k events <> [].
Proof.
  intros H. apply in_map_iff in H as (e & Hk & He).
  assert (Hin : In e (members_of k events)) by (apply members_of_In; auto).
  intros E. rewrite E in Hin. exact Hin.
Qed.

(** The selection loop over clusters that are all non-empty. *)
Lemma select_each_clusters events keys :
  (forall k, In k keys -> In k (map course_code events)) ->
  exists out,
    select_each cfg (map (fun k => (k, members_of k events)) keys) = Returned out /\
    map course_code out = keys /\
    (forall e, In e out -> In e events).
Proof.
  induction keys as [| k keys IH]; intros Hk.
  - exists []. simpl. repeat split. tauto.
  - destruct IH as (out & Hout & Hkeys & Hin);
      [intros k' Hk'; apply Hk; right; exact Hk' |].
    destruct (select_by_mode cfg (members_of k events) k) as (r & Hsel & Hr & _);
      [apply members_of_present; apply Hk; left; reflexivity |].
    apply candidates_incl in Hr. apply members_of_In in Hr as [Hre Hrk].
    exists (r :: out). cbn [map select_each]. rewrite Hsel, Hout. cbn [bind].
    split; [reflexivity |]. split.
    + simpl. congruence.
    + intros e [<- | He]; auto.
Qed.

Lemma first_seen_length l : (List.length (first_seen l) <= List.length l)%nat.
Proof.
  induction l as [| a l IH]; simpl; [lia |].
  pose proof (filter_length_le (fun k' => negb (String.eqb k' a)) (first_seen l)).
  lia.
Qed.

(** One selected occurrence per cluster, in the order of the clusters. *)
Lemma optimize_schedule_clusters calendar :
  exists out,
    optimized_events cfg calendar = Returned out /\
    map course_code out = first_seen (map course_code (kept cfg calendar)) /\
    (forall e, In e out -> In e (kept cfg calendar)).
Proof.
  unfold optimized_events. fold (kept cfg calendar).
  rewrite group_events_by_course_grouped. unfold grouped.
  apply select_each_clusters. intros k. apply first_seen_In.
Qed.

End Pipeline.

(** The list [optimized_events] has exactly one event per distinct course
    code of the events left by the weekend filter, in the first-seen order
    of the codes in the list it is given. *)
Lemma optimized_events_per_course (cfg : Config) (calendar : list Event) :
  exists out,
    optimized_events cfg calendar = Returned out /\
    map course_code out = first_seen (map course_code (kept cfg calendar)) /\
    NoDup (map course_code out) /\
    List.length out = List.length (first_seen (map course_code (kept cfg calendar))) /\
    (List.length out <= List.length calendar)%nat /\
    (forall e, In e out -> In e (kept cfg calendar)).
Proof.
  destruct (optimize_schedule_clusters cfg calendar) as (out & Hout & Hkeys & Hin).
  exists out. split; [exact Hout |]. split; [exact Hkeys |].
  assert (Hlen : List.length out
                 = List.length (first_seen (map course_code (kept cfg calendar))))
    by (rewrite <- Hkeys; symmetry; apply length_map).
  split; [rewrite Hkeys; apply first_seen_NoDup |].
  split; [exact Hlen |]. split; [| exact Hin].
  rewrite Hlen.
  pose proof (first_seen_length (map course_code (kept cfg calendar))) as H1.
  rewrite length_map in H1.
  pose proof (filter_length_le (fun e => negb (should_skip_weekend cfg e)) calendar) as H2.
  unfold kept in *. lia.
Qed.

(** ** The end of an occurrence is never read *)

Section EndUnread.

Variables (cfg : Config) (f : Event -> Arrow).

Lemma filter_map_same {A : Type} (p : A -> bool) (h : A -> A) l :
  (forall x, p (h x) = p x) -> filter p (map h l) = map h (filter p l).
Proof.
  intros H. induction l as [| x l IH]; simpl; [reflexivity |].
  rewrite H. destruct (p x); simpl; congruence.
Qed.

Lemma kept_with_end calendar :
  kept cfg (map (with_end f) calendar) = map (with_end f) (kept cfg calendar).
Proof. apply filter_map_same. reflexivity. Qed.

Lemma labelled_with_end l events :
  labelled l (map (with_end f) events) = map (with_end f) (labelled l events).
Proof. apply filter_map_same. reflexivity. Qed.

Lemma members_of_with_end k events :
  members_of k (map (with_end f) events) = map (with_end f) (members_of k events).
Proof. apply filter_map_same. reflexivity. Qed.

Lemma candidates_with_end events :
  events_to_choose_from cfg (map (with_end f) events)
  = map (with_end f) (events_to_choose_from cfg events).
Proof.
  rewrite !candidates_by_label, !labelled_with_end.
  destruct (labelled (preferred cfg) events); [| reflexivity].
  cbn [map]. destruct (is_str _ _); [| reflexivity].
  destruct (labelled "ALL" events); reflexivity.
Qed.

Lemma fold_with_end (pick : Z -> Z -> bool) xs : forall best,
  fold_left (fun b y => if pick (start y) (start b) then y else b)
            (map (with_end f) xs) (with_end f best)
  = with_end f (fold_left (fun b y => if pick (start y) (start b) then y else b) xs best).
Proof.
  induction xs as [| x xs IH]; intros best; simpl; [reflexivity |].
  change (start (with_end f x)) with (start x).
  change (start (with_end f best)) with (start best).
  destruct (pick (start x) (start best)); apply IH.
Qed.

Lemma select_with_end events code :
  select_optimal_event cfg (map (with_end f) events) code
  = fmap (option_map (with_end f)) (select_optimal_event cfg events code).
Proof.
  destruct events as [| e0 events']; [reflexivity |].
  unfold select_optimal_event. rewrite candidates_with_end.
  cbn [map]. destruct (events_to_choose_from cfg (e0 :: events')) as [| c cs];
    [reflexivity |].
  cbn [map]. destruct (String.eqb _ "earliest_lesson").
  - unfold py_min. cbn [bind fmap option_map]. do 2 f_equal.
    apply (fold_with_end Z.ltb).
  - destruct (String.eqb _ "latest_lesson").
    + unfold py_max. cbn [bind fmap option_map]. do 2 f_equal.
      apply (fold_with_end Z.gtb).
    + reflexivity.
Qed.

Lemma select_each_with_end (items : dict) :
  select_each cfg (map (fun kl => (fst kl, map (with_end f) (snd kl))) items)
  = fmap (map (with_end f)) (select_each cfg items).
Proof.
  induction items as [| [k l] items IH]; [reflexivity |].
  cbn [map select_each fst snd]. rewrite select_with_end, IH.
  destruct (select_optimal_event cfg l k) as [[r |] | exc]; cbn [bind fmap option_map];
    destruct (select_each cfg items); reflexivity.
Qed.

Lemma grouped_with_end events :
  grouped (map (with_end f) events)
  = map (fun kl => (fst kl, map (with_end f) (snd kl))) (grouped events).
Proof.
  unfold grouped. rewrite !map_map. cbn [fst snd].
  replace (map (fun x => course_code (with_end f x)) events) with (map course_code events)
    by (apply map_ext; reflexivity).
  apply map_ext. intros k. rewrite members_of_with_end. reflexivity.
Qed.

Lemma optimize_schedule_with_end calendar :
  optimized_events cfg (map (with_end f) calendar)
  = fmap (map (with_end f)) (optimized_events cfg calendar).
Proof.
  unfold optimized_events.
  fold (kept cfg (map (with_end f) calendar)). fold (kept cfg calendar).
  rewrite !group_events_by_course_grouped, kept_with_end, grouped_with_end.
  apply select_each_with_end.
Qed.

End EndUnread.

(** The end of an event is never read: whatever ends the events are given,
    before or after their starts, the same events are selected. *)
Lemma end_is_never_read (cfg : Config) (calendar : list Event)
    (f : Event -> Arrow) :
  exists out,
    optimized_events cfg calendar = Returned out /\
    optimized_events cfg (map (with_end f) calendar) = Returned (map (with_end f) out).
Proof.
  destruct (optimize_schedule_clusters cfg calendar) as (out & Hout & _).
  exists out. split; [exact Hout |].
  rewrite optimize_schedule_with_end, Hout. reflexivity.
Qed.

(** ** The sample calendar of test_optimizer.py *)

Example sample_groups :
  map detect_group [Sample.test1; Sample.test2; Sample.test3] = ["A"; "B"; "ALL"].
Proof. vm_compute. reflexivity. Qed.

Example sample_course_groups :
  group_events_by_course [Sample.test1; Sample.test2; Sample.test3]
  = [("5417", [Sample.test1; Sample.test2]); ("5418", [Sample.test3])].
Proof. vm_compute. reflexivity. Qed.

Example sample_optimized :
  optimized_events (_load_config None)
    [Sample.test1; Sample.test2; Sample.saturday; Sample.test3]
  = Returned [Sample.test1; Sample.test3].
Proof. vm_compute. reflexivity. Qed.

Example sample_fallback_to_all :
  select_optimal_event (_load_config None) [Sample.b_early; Sample.all_late] "5419"
  = Returned (Some Sample.all_late).
Proof. vm_compute. reflexivity. Qed.

Example sample_missing_fallback_key :
  select_optimal_event (Sample.config_file None None)
    [Sample.b_early; Sample.all_late] "5419"
  = Returned (Some Sample.b_early).
Proof. vm_compute. reflexivity. Qed.

Example sample_leading_zeros :
  group_events_by_course [Sample.zeros; Sample.untitled; Sample.no_zeros; Sample.reversed]
  = [("007", [Sample.zeros]); ("UNKNOWN", [Sample.untitled]);
     ("7", [Sample.no_zeros]); ("5417", [Sample.reversed])].
Proof. vm_compute. reflexivity. Qed.

(** ** Further properties of the selector and the pipeline *)

Section MoreSelector.

Variable cfg : Config.

Lemma select_singleton e code :
  select_optimal_event cfg [e] code = Returned (Some e).
Proof.
  destruct (select_by_mode cfg [e] code) as (r & Hsel & Hin & _); [discriminate |].
  apply candidates_incl in Hin. destruct Hin as [<- | []]. exact Hsel.
Qed.

Lemma candidates_with_preferred v events :
  labelled (preferred cfg) events <> [] ->
  events_to_choose_from (with_fallback v cfg) events = events_to_choose_from cfg events.
Proof.
  intros H. rewrite !candidates_by_label.
  change (preferred (with_fallback v cfg)) with (preferred cfg).
  destruct (labelled (preferred cfg) events); [congruence | reflexivity].
Qed.

Lemma first_seen_id l : NoDup l -> first_seen l = l.
Proof.
  induction 1 as [| a l Ha _ IH]; simpl; [reflexivity |].
  rewrite IH. f_equal. clear IH. induction l as [| b l IHl]; simpl; [reflexivity |].
  destruct (String.eqb_spec b a) as [-> | _]; [exfalso; apply Ha; left; reflexivity |].
  simpl. f_equal. apply IHl. intros H. apply Ha. right. exact H.
Qed.

Lemma members_of_unique events : forall e,
  NoDup (map course_code events) -> In e events ->
  members_of (course_code e) events = [e].
Proof.
  unfold members_of.
  induction events as [| a events IH]; intros e Hnd Hin; [destruct Hin |].
  simpl in Hnd. apply NoDup_cons_iff in Hnd as [Ha Hnd]. simpl.
  destruct (String.eqb_spec (course_code a) (course_code e)) as [E | Hne].
  - assert (a = e) as <-.
    { destruct Hin as [-> | Hin]; [reflexivity |].
      exfalso. apply Ha. rewrite E. apply in_map. exact Hin. }
    f_equal. apply (members_of_absent (course_code a) events Ha).
  - destruct Hin as [-> | Hin]; [congruence |]. apply IH; assumption.
Qed.

(** Clusters of one occurrence each are handed back unchanged. *)
Lemma select_each_singletons out :
  select_each cfg (map (fun e => (course_code e, [e])) out) = Returned out.
Proof.
  induction out as [| e out IH]; [reflexivity |].
  cbn [map select_each]. rewrite select_singleton, IH. reflexivity.
Qed.

Lemma kept_all events :
  (forall e, In e events -> should_skip_weekend cfg e = false) ->
  kept cfg events = events.
Proof.
  unfold kept. induction events as [| a events IH]; intros H; simpl; [reflexivity |].
  rewrite (H a) by (left; reflexivity). simpl. f_equal.
  apply IH. intros e He. apply H. right. exact He.
Qed.

Lemma kept_not_skipped calendar e :
  In e (kept cfg calendar) -> should_skip_weekend cfg e = false.
Proof.
  unfold kept. rewrite filter_In, negb_true_iff. tauto.
Qed.

End MoreSelector.

(** X1. A cluster with a single occurrence yields that occurrence, whatever
    the preferred group, the fallback behaviour and the tie-break, and
    whatever its own label. *)
Theorem single_member_cluster (cfg : Config) (e : Event) (code : string) :
  select_optimal_event cfg [e] code = Returned (Some e) /\
  events_to_choose_from cfg [e] = [e].
Proof.
  split; [apply select_singleton |].
  pose proof (candidates_nonempty cfg [e]) as Hne.
  destruct (events_to_choose_from cfg [e]) as [| c cs] eqn:E;
    [exfalso; apply Hne; [discriminate | reflexivity] |].
  assert (Hc : forall x, In x (c :: cs) -> x = e).
  { intros x Hx. rewrite <- E in Hx. apply candidates_incl in Hx.
    destruct Hx as [<- | []]. reflexivity. }
  assert (Hlen : (List.length (c :: cs) <= 1)%nat).
  { rewrite <- E. rewrite candidates_by_label.
    pose proof (filter_length_le (fun x => String.eqb (detect_group x) (preferred cfg)) [e]) as H1.
    pose proof (filter_length_le (fun x => String.eqb (detect_group x) "ALL") [e]) as H2.
    fold (labelled (preferred cfg) [e]) in H1. fold (labelled "ALL" [e]) in H2.
    destruct (labelled (preferred cfg) [e]); [| exact H1].
    destruct (is_str _ _); [| simpl; lia].
    destruct (labelled "ALL" [e]); [simpl; lia | exact H2]. }
  destruct cs as [| c' cs]; [| simpl in Hlen; lia].
  f_equal. apply Hc. left. reflexivity.
Qed.

(** X2. When some member of the cluster has the preferred group, the
    fallback entry of the configuration is never consulted: replacing it by
    any value, or removing it, leaves the selection unchanged. *)
Theorem fallback_unused_with_preferred (cfg : Config) (events : list Event)
    (code : string) (v : option string) :
  (exists e, In e events /\ detect_group e = preferred cfg) ->
  select_optimal_event (with_fallback v cfg) events code
  = select_optimal_event cfg events code.
Proof.
  intros (e & He & Hg).
  assert (Hp : labelled (preferred cfg) events <> []).
  { intros E. apply (proj1 (labelled_nil _ _) E e He Hg). }
  unfold select_optimal_event.
  rewrite (candidates_with_preferred cfg v events Hp). reflexivity.
Qed.

Lemma fallback_unused_with_preferred_witness :
  (exists e, In e [Sample.test2; Sample.test1] /\
             detect_group e = preferred (_load_config None)) /\
  select_optimal_event (with_fallback None (_load_config None))
    [Sample.test2; Sample.test1] "5417"
  = select_optimal_event (_load_config None) [Sample.test2; Sample.test1] "5417".
Proof.
  assert (H : exists e, In e [Sample.test2; Sample.test1] /\
                        detect_group e = preferred (_load_config None)).
  { exists Sample.test1. split; [simpl; tauto | vm_compute; reflexivity]. }
  split; [exact H |].
  exact (fallback_unused_with_preferred (_load_config None)
           [Sample.test2; Sample.test1] "5417" None H).
Defined.

(** The list [optimized_events] is a fixed point: given back as the
    calendar, it is selected again as it is. *)
Lemma optimized_events_idempotent (cfg : Config) (calendar out : list Event) :
  optimized_events cfg calendar = Returned out ->
  optimized_events cfg out = Returned out.
Proof.
  intros Hout.
  destruct (optimize_schedule_clusters cfg calendar) as (out' & Hout' & Hkeys & Hin).
  rewrite Hout in Hout'. injection Hout' as <-.
  assert (Hnd : NoDup (map course_code out))
    by (rewrite Hkeys; apply first_seen_NoDup).
  unfold optimized_events. fold (kept cfg out).
  rewrite (kept_all cfg out)
    by (intros e He; apply (kept_not_skipped cfg calendar); auto).
  rewrite group_events_by_course_grouped. unfold grouped.
  rewrite (first_seen_id _ Hnd), map_map.
  rewrite (map_ext_in _ (fun e => (course_code e, [e])))
    by (intros e He; f_equal; apply members_of_unique; assumption).
  apply select_each_singletons.
Qed.

Section Weekends.

Variable cfg : Config.

Lemma weekday_range a : (0 <= weekday a < 7)%Z.
Proof. unfold weekday. apply Z.mod_pos_bound. lia. Qed.

Lemma not_skipped_weekday e :
  skip_weekends cfg <> Some false ->
  should_skip_weekend cfg e = false -> (weekday (begin e) < 5)%Z.
Proof.
  unfold should_skip_weekend. intros Hs.
  destruct (skip_weekends cfg) as [[|] |]; simpl; try congruence;
    intros H; apply Z.leb_gt in H; exact H.
Qed.

Lemma skip_disabled e :
  skip_weekends cfg = Some false -> should_skip_weekend cfg e = false.
Proof. unfold should_skip_weekend. intros ->. reflexivity. Qed.

End Weekends.

(** Unless skip_weekends is false, no event of [optimized_events] starts on
    a Saturday or a Sunday. *)
Lemma no_weekend_in_optimized_events (cfg : Config) (calendar out : list Event) :
  skip_weekends cfg <> Some false ->
  optimized_events cfg calendar = Returned out ->
  forall e, In e out -> (0 <= weekday (begin e) < 5)%Z.
Proof.
  intros Hs Hout e He.
  destruct (optimize_schedule_clusters cfg calendar) as (out' & Hout' & _ & Hin).
  rewrite Hout in Hout'. injection Hout' as <-.
  split; [apply weekday_range |].
  apply (not_skipped_weekday cfg e Hs).
  apply (kept_not_skipped cfg calendar). auto.
Qed.

(** With skip_weekends set to false nothing is filtered out of the list
    [optimized_events] works on. *)
Lemma weekends_kept_in_optimized_events (cfg : Config) (calendar : list Event) :
  skip_weekends cfg = Some false ->
  exists out,
    optimized_events cfg calendar = Returned out /\
    map course_code out = first_seen (map course_code calendar) /\
    (forall e, In e calendar -> In (course_code e) (map course_code out)).
Proof.
  intros Hs.
  destruct (optimize_schedule_clusters cfg calendar) as (out & Hout & Hkeys & _).
  rewrite (kept_all cfg calendar) in Hkeys
    by (intros e _; apply skip_disabled; exact Hs).
  exists out. split; [exact Hout |]. split; [exact Hkeys |].
  intros e He. rewrite Hkeys. apply first_seen_In. apply in_map. exact He.
Qed.

Section Partition.

Lemma dict_append_perm k x (d : dict) :
  Permutation (List.concat (map snd (dict_append k x d))) (x :: List.concat (map snd d)).
Proof.
  induction d as [| [k' l] d IH]; simpl.
  - reflexivity.
  - destruct (String.eqb k k'); simpl.
    + rewrite <- app_assoc. simpl. symmetry. apply Permutation_middle.
    + rewrite IH. symmetry. apply Permutation_middle.
Qed.

Lemma group_fold_perm events : forall d : dict,
  Permutation
    (List.concat (map snd (fold_left (fun course_groups event =>
                                   dict_append (course_code event) event course_groups)
                                events d)))
    (List.concat (map snd d) ++ events).
Proof.
  induction events as [| x events IH]; intros d; simpl.
  - rewrite app_nil_r. reflexivity.
  - rewrite IH, dict_append_perm. simpl. apply Permutation_middle.
Qed.

Lemma filter_perm {A : Type} (p : A -> bool) l l' :
  Permutation l l' -> Permutation (filter p l) (filter p l').
Proof.
  induction 1 as [| x l l' _ IH | x y l | l l' l'' _ IH1 _ IH2]; simpl.
  - reflexivity.
  - destruct (p x); [constructor |]; exact IH.
  - destruct (p x), (p y); try reflexivity. constructor.
  - etransitivity; eassumption.
Qed.

Lemma first_seen_perm l l' :
  Permutation l l' -> Permutation (first_seen l) (first_seen l').
Proof.
  intros H. apply NoDup_Permutation; try apply first_seen_NoDup.
  intros k. rewrite !first_seen_In. split; apply Permutation_in; [| symmetry]; exact H.
Qed.

End Partition.

(** X6. [group_events_by_course] partitions its input: the clusters taken
    together hold every event exactly once, the keys are pairwise distinct,
    no cluster is empty, and every member of a cluster has the code the
    cluster is filed under. *)
Theorem grouping_is_a_partition (events : list Event) :
  Permutation (List.concat (map snd (group_events_by_course events))) events /\
  NoDup (map fst (group_events_by_course events)) /\
  (forall k members,
     In (k, members) (group_events_by_course events) ->
     members <> [] /\ forall e, In e members -> course_code e = k).
Proof.
  split; [exact (group_fold_perm events []) |].
  rewrite group_events_by_course_grouped. unfold grouped. split.
  - rewrite map_map. simpl. rewrite map_id. apply first_seen_NoDup.
  - intros k members H. apply in_map_iff in H as (k' & [= -> <-] & Hk).
    apply (proj1 (first_seen_In _ _)) in Hk. split; [apply members_of_present; exact Hk |].
    intros e He. apply members_of_In in He. tauto.
Qed.

(** Reordering the list [optimized_events] is given changes neither the
    number of selected events nor their course codes. *)
Lemma optimized_events_order_independent (cfg : Config) (calendar calendar' : list Event) :
  Permutation calendar calendar' ->
  exists out out',
    optimized_events cfg calendar = Returned out /\
    optimized_events cfg calendar' = Returned out' /\
    Permutation (map course_code out) (map course_code out') /\
    List.length out = List.length out'.
Proof.
  intros Hp.
  destruct (optimize_schedule_clusters cfg calendar) as (out & Hout & Hkeys & _).
  destruct (optimize_schedule_clusters cfg calendar') as (out' & Hout' & Hkeys' & _).
  exists out, out'. split; [exact Hout |]. split; [exact Hout' |].
  assert (H : Permutation (map course_code out) (map course_code out')).
  { rewrite Hkeys, Hkeys'. apply first_seen_perm. apply Permutation_map.
    apply filter_perm. exact Hp. }
  split; [exact H |].
  apply Permutation_length in H. rewrite !length_map in H. exact H.
Qed.

(** ** Further properties of the classifier and of the course code *)

Section MoreClassifier.

Import Re.

Lemma in_class_lower k a : in_class k (lower a) = in_class k a.
Proof.
  destruct k; destruct a as [[|] [|] [|] [|] [|] [|] [|] [|]]; vm_compute; reflexivity.
Qed.

Lemma deriv_ci a b r : lower a = lower b -> deriv true a r = deriv true b r.
Proof.
  intros H. induction r; simpl; rewrite ?IHr1, ?IHr2, ?IHr; try reflexivity.
  - unfold char_eq. rewrite H. reflexivity.
  - rewrite <- (in_class_lower k a), H, in_class_lower. reflexivity.
Qed.

Lemma match_ci s : forall s' r,
  ci_equal s s' -> match_ true r s = match_ true r s'.
Proof.
  unfold ci_equal. induction s as [| a s IH]; intros [| b s'] r H; try discriminate.
  - reflexivity.
  - simpl in H. injection H as Hab Hs. simpl.
    rewrite (deriv_ci a b r Hab). f_equal. apply IH. exact Hs.
Qed.

Lemma search_ci s : forall s' r,
  ci_equal s s' -> search true r s = search true r s'.
Proof.
  induction s as [| a s IH]; intros [| b s'] r H; try discriminate.
  - reflexivity.
  - cbn [search]. rewrite (match_ci _ _ r H). f_equal.
    apply IH. unfold ci_equal in *. simpl in H. congruence.
Qed.

Lemma first_match_ci rules s s' :
  ci_equal s s' -> first_match rules s = first_match rules s'.
Proof.
  intros H. induction rules as [| r rules IH]; simpl; [reflexivity |].
  rewrite (search_ci s s' _ H), IH. reflexivity.
Qed.

(** "groepe", "GroupE": the word directly followed by the letter e. *)
Lemma word_e_is_phrase event :
  contains_ci (text_of event) "groepe" \/ contains_ci (text_of event) "groupe" ->
  has_group_phrase event "E".
Proof.
  intros [(w & Hw & Hc) | (w & Hw & Hc)]; exists w; (split; [| exact Hc]);
    unfold ci_equal in Hw;
    destruct w as [| a [| b [| c [| d [| e [| f [| ? ?]]]]]]]; try discriminate;
    exists [a; b; c; d; e], [], f; simpl in Hw; injection Hw as Ha Hb Hc' Hd He Hf;
    (split; [reflexivity |]); (split; [| split; [constructor | symmetry; exact Hf]]).
  - left. unfold ci_equal. simpl. congruence.
  - right. unfold ci_equal. simpl. congruence.
Qed.

Lemma no_phrase_of_not_found event letter :
  found event (group_letter letter) = false -> ~ has_group_phrase event letter.
Proof.
  intros H Hp. apply (found_phrase event) in Hp. congruence.
Qed.

Lemma not_found_iff_no_phrases event :
  (forall l, In l letters -> ~ has_group_phrase event l) <->
  found event (group_letter "A") = false /\
  found event (group_letter "B") = false /\
  found event (group_letter "C") = false /\
  found event (group_letter "D") = false /\
  found event (group_letter "E") = false.
Proof.
  split.
  - intros H. repeat split; apply no_phrase_not_found; apply H; simpl; tauto.
  - intros (HA & HB & HC & HD & HE) l Hl. simpl in Hl.
    destruct Hl as [<- | [<- | [<- | [<- | [<- | []]]]]];
      apply no_phrase_of_not_found; assumption.
Qed.

End MoreClassifier.

(** X8. [detect_group] only ever answers one of the eight labels A, B, C,
    D, E, ALL, NA and UNKNOWN. *)
Theorem detect_group_labels (event : Event) :
  In (detect_group event) group_labels.
Proof.
  rewrite detect_group_rules. unfold group_labels.
  repeat match goal with
         | |- context [if ?b then _ else _] => destruct b
         end; simpl; tauto.
Qed.

(** X9. The classification ignores the case of the letters: two events
    whose texts differ only by case get the same label. *)
Theorem detect_group_ignores_case (e e' : Event) :
  ci_equal (text_of e) (text_of e') -> detect_group e = detect_group e'.
Proof.
  intros H. unfold detect_group. apply first_match_ci. exact H.
Qed.

Lemma detect_group_ignores_case_witness :
  ci_equal (text_of Sample.b_early)
           (text_of {| name := "5419 - RECHT - WERKZITTING";
                       description := Some "groep(EN): GROEP b";
                       begin := Sample.utc Sample.wed 9 0;
                       end_ := Sample.utc Sample.wed 11 0 |}) /\
  detect_group {| name := "5419 - RECHT - WERKZITTING";
                  description := Some "groep(EN): GROEP b";
                  begin := Sample.utc Sample.wed 9 0;
                  end_ := Sample.utc Sample.wed 11 0 |} = "B".
Proof.
  assert (H : ci_equal (text_of Sample.b_early)
                (text_of {| name := "5419 - RECHT - WERKZITTING";
                            description := Some "groep(EN): GROEP b";
                            begin := Sample.utc Sample.wed 9 0;
                            end_ := Sample.utc Sample.wed 11 0 |}))
    by (vm_compute; reflexivity).
  split; [exact H |].
  rewrite <- (detect_group_ignores_case _ _ H). vm_compute. reflexivity.
Defined.

(** X10. The letter of a rule need not stand alone: a text that contains
    "groepe" or "groupe" (as in the plural "groepen") and no phrase for A, B,
    C or D is labelled E, whatever else it contains. *)
Theorem plural_word_is_group_e (event : Event) :
  contains_ci (text_of event) "groepe" \/ contains_ci (text_of event) "groupe" ->
  (forall l, In l ["A"; "B"; "C"; "D"]%char -> ~ has_group_phrase event l) ->
  detect_group event = "E".
Proof.
  intros Hw Hno.
  apply (first_letter_wins event "E");
    [simpl; tauto | apply word_e_is_phrase; exact Hw |].
  intros l Hl Hlt. apply Hno. simpl in Hl.
  destruct Hl as [<- | [<- | [<- | [<- | [<- | []]]]]];
    try (simpl; tauto). vm_compute in Hlt. lia.
Qed.

Lemma plural_word_is_group_e_witness :
  let e := {| name := "5418 - Wiskunde"; description := Some "Groepen: all, {N/A}";
              begin := Sample.utc Sample.wed 9 0; end_ := Sample.utc Sample.wed 11 0 |} in
  (contains_ci (text_of e) "groepe" \/ contains_ci (text_of e) "groupe") /\
  (forall l, In l ["A"; "B"; "C"; "D"]%char -> ~ has_group_phrase e l) /\
  detect_group e = "E".
Proof.
  intros e.
  assert (H1 : contains_ci (text_of e) "groepe" \/ contains_ci (text_of e) "groupe")
    by (left; apply search_str; vm_compute; reflexivity).
  assert (H2 : forall l, In l ["A"; "B"; "C"; "D"]%char -> ~ has_group_phrase e l).
  { intros l Hl Hp. apply search_group_letter in Hp. simpl in Hl.
    destruct Hl as [<- | [<- | [<- | [<- | []]]]]; vm_compute in Hp; discriminate. }
  split; [exact H1 |]. split; [exact H2 |].
  exact (plural_word_is_group_e e H1 H2).
Defined.

(** X11. The last two rules and the default, exactly: the label is ALL when
    the text has no letter phrase and contains "all" (anywhere, also inside
    a word; the alternative "alle" adds nothing), NA when it has neither but
    contains {N/A}, and UNKNOWN when it has none of the three. *)
Theorem non_letter_labels (event : Event) :
  let no_letter := forall l, In l letters -> ~ has_group_phrase event l in
  let has_all := contains_ci (text_of event) "all" in
  let has_na := contains_ci (text_of event) "{N/A}" in
  (detect_group event = "ALL" <-> no_letter /\ has_all) /\
  (detect_group event = "NA" <-> no_letter /\ ~ has_all /\ has_na) /\
  (detect_group event = "UNKNOWN" <-> no_letter /\ ~ has_all /\ ~ has_na).
Proof.
  cbv zeta. rewrite not_found_iff_no_phrases.
  rewrite <- (search_all (text_of event)), <- (search_str (text_of event) "{N/A}").
  fold (found event (Re.Alt (Re.str "all") (Re.str "alle"))).
  fold (found event (Re.str "{N/A}")).
  rewrite detect_group_rules.
  destruct (found event (group_letter "A")), (found event (group_letter "B")),
    (found event (group_letter "C")), (found event (group_letter "D")),
    (found event (group_letter "E")),
    (found event (Re.Alt (Re.str "all") (Re.str "alle"))),
    (found event (Re.str "{N/A}"));
    repeat split; intros; try discriminate; try tauto;
    repeat match goal with
           | H : _ /\ _ |- _ => destruct H
           end; congruence.
Qed.

Section Runs.

Variable p : ascii -> bool.


End Runs.



(** ** The group the Google Calendar integration extracts *)

Section SearchGroup.

Import Re.
Variables (ic : bool) (upto post : regex).

Lemma match_group1_some_cat s p :
  match_group1 ic upto post s = Some p -> match_ ic (Cat upto post) s = true.
Proof.
  intros H. apply match_group1_some in H as (q & -> & Hl & Hm).
  apply match_lang in Hm as (p2 & q2 & -> & Hl2).
  apply match_lang. exists (p ++ p2), q2. split.
  - rewrite app_assoc. reflexivity.
  - constructor; assumption.
Qed.

Lemma match_group1_none_cat s :
  match_group1 ic upto post s = None -> match_ ic (Cat upto post) s = false.
Proof.
  intros H. destruct (match_ ic (Cat upto post) s) eqn:E; [| reflexivity].
  exfalso. apply match_lang in E as (w & q & -> & Hl).
  inversion Hl as [ | | | r1 r2 p p2 Hp Hp2 | | | | ]; subst.
  assert (Hm : match_ ic post (p2 ++ q) = true)
    by (apply match_lang; exists p2, q; auto).
  rewrite (match_group1_none ic post _ _ H p (p2 ++ q)) in Hm;
    [discriminate | rewrite app_assoc; reflexivity | exact Hp].
Qed.

Lemma last_char_snoc l c : last_char (l ++ [c]) = Some c.
Proof. unfold last_char. rewrite rev_app_distr. reflexivity. Qed.

Lemma last_char_some l : l <> [] -> exists c, last_char l = Some c.
Proof.
  intros H. destruct (exists_last H) as (l' & c & ->).
  exists c. apply last_char_snoc.
Qed.

Hypothesis upto_not_empty : nullable upto = false.

(** The search finds nothing exactly when the pattern occurs nowhere. *)
Lemma search_group1_none s :
  search_group1 ic upto post s = None <-> search ic (Cat upto post) s = false.
Proof.
  induction s as [| a s IH]; cbn [search_group1 search].
  - destruct (match_group1 ic upto post []) as [p |] eqn:E.
    + rewrite (match_group1_some_cat _ _ E). simpl.
      apply match_group1_some in E as (q & _ & Hl & _).
      destruct (last_char_some p) as (c & ->); [| split; discriminate].
      intros ->. apply (nullable_lang ic) in Hl. congruence.
    + rewrite (match_group1_none_cat _ E). simpl. tauto.
  - destruct (match_group1 ic upto post (a :: s)) as [p |] eqn:E.
    + rewrite (match_group1_some_cat _ _ E). simpl.
      apply match_group1_some in E as (q & _ & Hl & _).
      destruct (last_char_some p) as (c & ->); [| split; discriminate].
      intros ->. apply (nullable_lang ic) in Hl. congruence.
    + rewrite (match_group1_none_cat _ E). simpl. exact IH.
Qed.

(** What the search returns ends a match of the pattern up to its group. *)
Lemma search_group1_some s c :
  search_group1 ic upto post s = Some c ->
  exists p, lang ic upto p /\ last_char p = Some c /\
            exists pre q, s = pre ++ p ++ q /\ match_ ic post q = true.
Proof.
  induction s as [| a s IH]; cbn [search_group1].
  - destruct (match_group1 ic upto post []) as [p |] eqn:E; [| discriminate].
    intros Hc. apply match_group1_some in E as (q & Es & Hl & Hm).
    exists p. repeat split; try assumption. exists [], q. auto.
  - destruct (match_group1 ic upto post (a :: s)) as [p |] eqn:E.
    + intros Hc. apply match_group1_some in E as (q & Es & Hl & Hm).
      exists p. repeat split; try assumption. exists [], q. auto.
    + intros Hc. destruct (IH Hc) as (p & Hl & Hp & pre & q & -> & Hm).
      exists p. repeat split; try assumption. exists (a :: pre), q. auto.
Qed.

End SearchGroup.

Section GroupPatterns.

Import Re.

Lemma lang_letter_class w :
  lang true letter_class w
  <-> exists c l, w = [c] /\ In l letters /\ lower c = lower l.
Proof.
  unfold letter_class, letters. split.
  - intros H.
    repeat match goal with
           | H : lang true (Alt _ _) _ |- _ => inversion H; subst; clear H
           end;
      match goal with
      | H : lang true (Lit ?l) _ |- _ =>
          inversion H; subst; exists x, l; split; [reflexivity |];
          split; [simpl; tauto | symmetry; apply char_eq_ci; assumption]
      end.
  - intros (c & l & -> & Hl & Hc). simpl in Hl.
    assert (Hlit : lang true (Lit l) [c])
      by (constructor; apply char_eq_ci; symmetry; exact Hc).
    destruct Hl as [<- | [<- | [<- | [<- | [<- | []]]]]].
    + apply L_alt_l. exact Hlit.
    + apply L_alt_r, L_alt_l. exact Hlit.
    + apply L_alt_r, L_alt_r, L_alt_l. exact Hlit.
    + apply L_alt_r, L_alt_r, L_alt_r, L_alt_l. exact Hlit.
    + apply L_alt_r, L_alt_r, L_alt_r, L_alt_r. exact Hlit.
Qed.

(** word\s*[A-E] matches the phrases word, whitespace, letter. *)
Lemma lang_word_then_letter word w :
  lang true (fst (word_then_letter word)) w
  <-> exists g ws c l,
        w = g ++ ws ++ [c] /\ ci_equal (chars word) g /\ all_space ws /\
        In l letters /\ lower c = lower l.
Proof.
  unfold word_then_letter. cbn [fst]. split.
  - intros H.
    inversion H as [ | | | r1 r2 g s2 Hg H2 | | | | ]; subst.
    inversion H2 as [ | | | r1 r2 ws s3 Hws H3 | | | | ]; subst.
    apply lang_letter_class in H3 as (c & l & -> & Hl & Hc).
    exists g, ws, c, l. repeat split; try assumption.
    + apply lang_str. assumption.
    + apply (lang_star_class true Space). assumption.
  - intros (g & ws & c & l & -> & Hg & Hws & Hl & Hc).
    constructor; [apply lang_str; assumption |].
    constructor; [apply (lang_star_class true Space); assumption |].
    apply lang_letter_class. exists c, l. auto.
Qed.

(** \s*word matches whitespace followed by the word. *)
Lemma lang_space_word word w :
  lang true (snd (letter_then_word word)) w
  <-> exists ws g, w = ws ++ g /\ all_space ws /\ ci_equal (chars word) g.
Proof.
  unfold letter_then_word. cbn [snd]. split.
  - intros H. inversion H as [ | | | r1 r2 ws g Hws Hg | | | | ]; subst.
    exists ws, g. repeat split.
    + apply (lang_star_class true Space). assumption.
    + apply lang_str. assumption.
  - intros (ws & g & -> & Hws & Hg).
    constructor; [apply (lang_star_class true Space) | apply lang_str]; assumption.
Qed.

Lemma word_then_letter_not_empty word :
  word <> "" -> nullable (fst (word_then_letter word)) = false.
Proof. destruct word; [congruence | reflexivity]. Qed.

(** The forward patterns occur exactly where a letter phrase does. *)
Lemma forward_found event word :
  word = "groep" \/ word = "group" ->
  search true (Cat (fst (word_then_letter word)) (snd (word_then_letter word)))
         (text_of event) = true ->
  exists l, In l letters /\ has_group_phrase event l.
Proof.
  intros Hword H. apply search_lang in H as (w & Hl & Hc).
  inversion Hl as [ | | | r1 r2 p e Hp He | | | | ]; subst.
  inversion He; subst. rewrite app_nil_r in Hc.
  apply lang_word_then_letter in Hp as (g & ws & c & l & -> & Hg & Hws & Hin & Hlc).
  exists l. split; [exact Hin |]. exists (g ++ ws ++ [c]). split; [| exact Hc].
  exists g, ws, c. repeat split; try assumption.
  destruct Hword as [-> | ->]; [left | right]; exact Hg.
Qed.

Lemma phrase_found event l :
  In l letters -> has_group_phrase event l ->
  search true (Cat (fst (word_then_letter "groep")) (snd (word_then_letter "groep")))
         (text_of event) = true \/
  search true (Cat (fst (word_then_letter "group")) (snd (word_then_letter "group")))
         (text_of event) = true.
Proof.
  intros Hin (w & (g & ws & c & -> & Hg & Hws & Hc) & Hcont).
  destruct Hg as [Hg | Hg]; [left | right]; apply search_lang;
    exists (g ++ ws ++ [c]); (split; [| exact Hcont]);
    rewrite <- (app_nil_r (g ++ ws ++ [c]));
    (constructor; [| constructor]);
    apply lang_word_then_letter; exists g, ws, c, l; auto.
Qed.

(** The reverse patterns occur exactly where a reverse phrase does. *)
Lemma reverse_found event word :
  word = "groep" \/ word = "group" ->
  search true (Cat (fst (letter_then_word word)) (snd (letter_then_word word)))
         (text_of event) = true ->
  exists l, In l letters /\ has_reverse_phrase event l.
Proof.
  intros Hword H. apply search_lang in H as (w & Hl & Hc).
  inversion Hl as [ | | | r1 r2 p e Hp He | | | | ]; subst.
  apply lang_letter_class in Hp as (c & l & -> & Hin & Hlc).
  apply lang_space_word in He as (ws & g & -> & Hws & Hg).
  exists l. split; [exact Hin |]. exists ([c] ++ ws ++ g). split; [| exact Hc].
  exists c, ws, g. repeat split; try assumption.
  destruct Hword as [-> | ->]; [left | right]; exact Hg.
Qed.

Lemma reverse_phrase_found event l :
  In l letters -> has_reverse_phrase event l ->
  search true (Cat (fst (letter_then_word "groep")) (snd (letter_then_word "groep")))
         (text_of event) = true \/
  search true (Cat (fst (letter_then_word "group")) (snd (letter_then_word "group")))
         (text_of event) = true.
Proof.
  intros Hin (w & (c & ws & g & -> & Hg & Hws & Hc) & Hcont).
  destruct Hg as [Hg | Hg]; [left | right]; apply search_lang;
    exists (c :: ws ++ g); (split; [| exact Hcont]);
    change (c :: ws ++ g) with ([c] ++ ws ++ g);
    (constructor;
     [apply lang_letter_class; exists c, l; auto
     | apply lang_space_word; exists ws, g; auto]).
Qed.

(** The loop of [_extract_group_from_event], pattern by pattern. *)
Lemma extract_patterns event :
  _extract_group_from_event event =
  let find pat := search_group1 true (fst pat) (snd pat) (text_of event) in
  match find (word_then_letter "groep") with
  | Some c => Some (String c EmptyString)
  | None =>
      match find (word_then_letter "group") with
      | Some c => Some (String c EmptyString)
      | None =>
          match find (letter_then_word "groep") with
          | Some c => Some (String c EmptyString)
          | None =>
              match find (letter_then_word "group") with
              | Some c => Some (String c EmptyString)
              | None => None
              end
          end
      end
  end.
Proof. reflexivity. Qed.

End GroupPatterns.

Section Extraction.

Import Re.
Variable event : Event.

Lemma letter_class_not_empty word : nullable (fst (letter_then_word word)) = false.
Proof. reflexivity. Qed.

(** A group found by a forward pattern is the letter of a phrase of the text. *)
Lemma forward_group word c :
  word = "groep" \/ word = "group" ->
  search_group1 true (fst (word_then_letter word)) (snd (word_then_letter word))
                (text_of event) = Some c ->
  exists l, In l letters /\ lower c = lower l /\ has_group_phrase event l.
Proof.
  intros Hword H.
  apply search_group1_some in H as (p & Hp & Hlast & pre & q & Ht & _).
  apply lang_word_then_letter in Hp as (g & ws & c' & l & -> & Hg & Hws & Hin & Hc).
  rewrite !app_assoc, last_char_snoc in Hlast. injection Hlast as ->.
  exists l. split; [exact Hin |]. split; [exact Hc |].
  exists (g ++ ws ++ [c]). split.
  - exists g, ws, c. repeat split; try assumption.
    destruct Hword as [-> | ->]; [left | right]; exact Hg.
  - exists pre, q. exact Ht.
Qed.

(** A group found by a reverse pattern is one of the five letters. *)
Lemma reverse_group word c :
  search_group1 true (fst (letter_then_word word)) (snd (letter_then_word word))
                (text_of event) = Some c ->
  exists l, In l letters /\ lower c = lower l.
Proof.
  intros H. apply search_group1_some in H as (p & Hp & Hlast & _).
  apply lang_letter_class in Hp as (c' & l & -> & Hin & Hc).
  injection Hlast as ->. exists l. auto.
Qed.

Lemma forward_none word :
  word <> "" ->
  search_group1 true (fst (word_then_letter word)) (snd (word_then_letter word))
                (text_of event) = None
  <-> search true (Cat (fst (word_then_letter word)) (snd (word_then_letter word)))
             (text_of event) = false.
Proof. intros H. apply search_group1_none. apply word_then_letter_not_empty. exact H. Qed.

Lemma reverse_none word :
  search_group1 true (fst (letter_then_word word)) (snd (letter_then_word word))
                (text_of event) = None
  <-> search true (Cat (fst (letter_then_word word)) (snd (letter_then_word word)))
             (text_of event) = false.
Proof. apply search_group1_none. reflexivity. Qed.

(** A text with a letter phrase has its group extracted by a forward
    pattern, as the letter of one of its phrases. *)
Lemma phrase_extracted l :
  In l letters -> has_group_phrase event l ->
  exists c l0,
    _extract_group_from_event event = Some (String c EmptyString) /\
    In l0 letters /\ lower c = lower l0 /\ has_group_phrase event l0.
Proof.
  intros Hin Hp. rewrite extract_patterns. cbv beta zeta.
  destruct (search_group1 true (fst (word_then_letter "groep")) _ _) as [c |] eqn:E1.
  - destruct (forward_group "groep" c (or_introl eq_refl) E1) as (l0 & H).
    exists c, l0. split; [reflexivity | exact H].
  - destruct (search_group1 true (fst (word_then_letter "group")) _ _) as [c |] eqn:E2.
    + destruct (forward_group "group" c (or_intror eq_refl) E2) as (l0 & H).
      exists c, l0. split; [reflexivity | exact H].
    + exfalso. apply forward_none in E1; [| discriminate].
      apply forward_none in E2; [| discriminate].
      destruct (phrase_found event l Hin Hp); congruence.
Qed.

(** A letter label comes from a phrase of that letter. *)
Lemma label_has_phrase l :
  In l letters -> detect_group event = label l -> has_group_phrase event l.
Proof.
  intros Hin H. rewrite detect_group_rules in H. unfold label in H.
  destruct (found event (group_letter "A")) eqn:EA;
    [injection H as H'; subst l; apply search_group_letter; exact EA |].
  destruct (found event (group_letter "B")) eqn:EB;
    [injection H as H'; subst l; apply search_group_letter; exact EB |].
  destruct (found event (group_letter "C")) eqn:EC;
    [injection H as H'; subst l; apply search_group_letter; exact EC |].
  destruct (found event (group_letter "D")) eqn:ED;
    [injection H as H'; subst l; apply search_group_letter; exact ED |].
  destruct (found event (group_letter "E")) eqn:EE;
    [injection H as H'; subst l; apply search_group_letter; exact EE |].
  destruct (found event (Alt (str "all") (str "alle"))); [discriminate H |].
  destruct (found event (str "{N/A}")); discriminate H.
Qed.

End Extraction.

(** X13. Whatever [_extract_group_from_event] returns is a single
    character, one of the letters A to E in upper or lower case, as it is
    written in the text. *)
Theorem extracted_group_is_a_letter (event : Event) (s : string) :
  _extract_group_from_event event = Some s ->
  exists c l, s = String c EmptyString /\ In l letters /\ Re.lower c = Re.lower l.
Proof.
  rewrite extract_patterns. cbv beta zeta.
  destruct (search_group1 true (fst (word_then_letter "groep")) _ _) as [c |] eqn:E1.
  - intros [= <-].
    destruct (forward_group event "groep" c (or_introl eq_refl) E1) as (l & Hl & Hc & _).
    exists c, l. auto.
  - destruct (search_group1 true (fst (word_then_letter "group")) _ _) as [c |] eqn:E2.
    + intros [= <-].
      destruct (forward_group event "group" c (or_intror eq_refl) E2) as (l & Hl & Hc & _).
      exists c, l. auto.
    + destruct (search_group1 true (fst (letter_then_word "groep")) _ _) as [c |] eqn:E3.
      * intros [= <-]. destruct (reverse_group event "groep" c E3) as (l & Hl & Hc).
        exists c, l. auto.
      * destruct (search_group1 true (fst (letter_then_word "group")) _ _) as [c |] eqn:E4;
          [| discriminate].
        intros [= <-]. destruct (reverse_group event "group" c E4) as (l & Hl & Hc).
        exists c, l. auto.
Qed.

Lemma extracted_group_is_a_letter_witness :
  _extract_group_from_event Sample.reversed = Some "A" /\
  exists c l, "A" = String c EmptyString /\ In l letters /\ Re.lower c = Re.lower l.
Proof.
  assert (H : _extract_group_from_event Sample.reversed = Some "A")
    by (vm_compute; reflexivity).
  split; [exact H |].
  exact (extracted_group_is_a_letter Sample.reversed "A" H).
Defined.

(** X14. [_extract_group_from_event] returns None exactly when the text has
    neither a phrase word + letter nor a phrase letter + word, for any of
    the letters A to E: unlike [detect_group], it knows the reverse
    phrasing. *)
Theorem no_group_extracted_iff (event : Event) :
  _extract_group_from_event event = None <->
  forall l, In l letters ->
            ~ has_group_phrase event l /\ ~ has_reverse_phrase event l.
Proof.
  rewrite extract_patterns. cbv beta zeta. split.
  - intros H l Hl.
    destruct (search_group1 true (fst (word_then_letter "groep")) _ _) eqn:E1;
      [discriminate |].
    destruct (search_group1 true (fst (word_then_letter "group")) _ _) eqn:E2;
      [discriminate |].
    destruct (search_group1 true (fst (letter_then_word "groep")) _ _) eqn:E3;
      [discriminate |].
    destruct (search_group1 true (fst (letter_then_word "group")) _ _) eqn:E4;
      [discriminate |].
    apply forward_none in E1; [| discriminate].
    apply forward_none in E2; [| discriminate].
    apply reverse_none in E3. apply reverse_none in E4.
    split; intros Hp.
    + destruct (phrase_found event l Hl Hp); congruence.
    + destruct (reverse_phrase_found event l Hl Hp); congruence.
  - intros Hno.
    assert (Hf : forall word, word = "groep" \/ word = "group" ->
                   search_group1 true (fst (word_then_letter word))
                     (snd (word_then_letter word)) (text_of event) = None).
    { intros word Hw. apply forward_none; [destruct Hw as [-> | ->]; discriminate |].
      destruct (Re.search true _ (text_of event)) eqn:E; [| reflexivity].
      exfalso. destruct (forward_found event word Hw E) as (l & Hl & Hp).
      exact (proj1 (Hno l Hl) Hp). }
    assert (Hr : forall word, word = "groep" \/ word = "group" ->
                   search_group1 true (fst (letter_then_word word))
                     (snd (letter_then_word word)) (text_of event) = None).
    { intros word Hw. apply reverse_none.
      destruct (Re.search true _ (text_of event)) eqn:E; [| reflexivity].
      exfalso. destruct (reverse_found event word Hw E) as (l & Hl & Hp).
      exact (proj2 (Hno l Hl) Hp). }
    rewrite (Hf "groep"), (Hf "group"), (Hr "groep"), (Hr "group") by tauto.
    reflexivity.
Qed.

(** X15. When the text names a single group in the phrasing word + letter,
    the optimizer and the Google integration agree: [detect_group] answers
    the label of that letter and [_extract_group_from_event] returns the
    letter, in the case it has in the text. *)
Theorem single_group_agreement (event : Event) (l : ascii) :
  In l letters ->
  has_group_phrase event l ->
  (forall l', In l' letters -> has_group_phrase event l' -> l' = l) ->
  detect_group event = label l /\
  exists c, _extract_group_from_event event = Some (String c EmptyString) /\
            Re.lower c = Re.lower l.
Proof.
  intros Hin Hp Hone. split.
  - apply first_letter_wins; try assumption.
    intros l' Hl' Hlt Hp'. rewrite (Hone l' Hl' Hp') in Hlt. lia.
  - destruct (phrase_extracted event l Hin Hp) as (c & l0 & He & Hl0 & Hc & Hp0).
    exists c. split; [exact He |]. rewrite <- (Hone l0 Hl0 Hp0). exact Hc.
Qed.

Lemma only_group_a_in_test1 :
  forall l', In l' letters -> has_group_phrase Sample.test1 l' -> l' = "A"%char.
Proof.
  intros l' Hl' Hp. apply search_group_letter in Hp. simpl in Hl'.
  destruct Hl' as [<- | [<- | [<- | [<- | [<- | []]]]]];
    try reflexivity; vm_compute in Hp; discriminate.
Defined.

Lemma single_group_agreement_witness :
  In "A"%char letters /\
  has_group_phrase Sample.test1 "A" /\
  detect_group Sample.test1 = "A" /\
  exists c, _extract_group_from_event Sample.test1 = Some (String c EmptyString).
Proof.
  assert (H1 : In "A"%char letters) by (simpl; tauto).
  assert (H2 : has_group_phrase Sample.test1 "A")
    by (apply search_group_letter; vm_compute; reflexivity).
  destruct (single_group_agreement Sample.test1 "A" H1 H2 only_group_a_in_test1)
    as (Hd & c & He & _).
  split; [exact H1 |]. split; [exact H2 |]. split; [exact Hd |].
  exists c. exact He.
Defined.

(** X16. Whenever [detect_group] labels an event with a letter, the
    description [ics_event_to_google_event] sends to Google ends with a line
    "Groep: " followed by the letter A to E (in either case) that
    [_extract_group_from_event] returns: it is that line alone when the
    event has no description or an empty one, and the description, a
    newline and that line otherwise. *)
Theorem letter_label_reaches_google (event : Event) (l : ascii) :
  In l letters ->
  detect_group event = label l ->
  exists c l0,
    In l0 letters /\ Re.lower c = Re.lower l0 /\
    _extract_group_from_event event = Some (String c EmptyString) /\
    (description event = None ->
     google_description event = ("Groep: " ++ String c EmptyString)%string) /\
    (description event = Some "" ->
     google_description event = ("Groep: " ++ String c EmptyString)%string) /\
    (forall d, description event = Some d -> d <> "" ->
               google_description event
               = (d ++ newline ++ "Groep: " ++ String c EmptyString)%string).
Proof.
  intros Hin Hd. pose proof (label_has_phrase event l Hin Hd) as Hp.
  destruct (phrase_extracted event l Hin Hp) as (c & l0 & He & Hl0 & Hc & _).
  exists c, l0. split; [exact Hl0 |]. split; [exact Hc |]. split; [exact He |].
  unfold google_description. rewrite He. unfold truthy. split; [| split].
  - intros ->. reflexivity.
  - intros ->. reflexivity.
  - intros d -> Hne. apply String.eqb_neq in Hne. rewrite Hne. reflexivity.
Qed.

Lemma letter_label_reaches_google_witness :
  In "A"%char letters /\
  detect_group Sample.test1 = label "A" /\
  exists c,
    google_description Sample.test1
    = ("Docent(en): ADRIAENSENS Charlotte, Groep(en): 03-005417 groep A, {N/A}"
       ++ newline ++ "Groep: " ++ String c EmptyString)%string.
Proof.
  assert (H1 : In "A"%char letters) by (simpl; tauto).
  assert (H2 : detect_group Sample.test1 = label "A") by (vm_compute; reflexivity).
  split; [exact H1 |]. split; [exact H2 |].
  destruct (letter_label_reaches_google Sample.test1 "A" H1 H2)
    as (c & _ & _ & _ & _ & _ & _ & Hd).
  exists c. apply Hd; [reflexivity | discriminate].
Defined.

(** The two classifiers can disagree: the optimizer tries the letters in the
    order A to E, the Google integration takes the leftmost phrase. *)
Example classifiers_disagree :
  let e := {| name := "5417 - groep b en groep A"; description := None;
              begin := Sample.utc Sample.wed 9 0; end_ := Sample.utc Sample.wed 11 0 |} in
  detect_group e = "A" /\ _extract_group_from_event e = Some "b".
Proof. vm_compute. split; reflexivity. Qed.

(** ** The configuration of the webhook endpoints *)

Lemma grouping_is_a_partition_witness :
  In ("5417", [Sample.test1; Sample.test2])
     (group_events_by_course [Sample.test1; Sample.test3; Sample.test2]) /\
  [Sample.test1; Sample.test2] <> [] /\
  forall e, In e [Sample.test1; Sample.test2] -> course_code e = "5417".
Proof.
  assert (H : In ("5417", [Sample.test1; Sample.test2])
                (group_events_by_course [Sample.test1; Sample.test3; Sample.test2]))
    by (vm_compute; left; reflexivity).
  split; [exact H |].
  exact (proj2 (proj2 (grouping_is_a_partition
                         [Sample.test1; Sample.test3; Sample.test2])) _ _ H).
Defined.

(** ** Calendars as sets *)

Section PythonSetFacts.

Context {A : Type} (same : A -> A -> bool).
Hypothesis same_eq : forall a b, same a b = true <-> a = b.


Lemma set_add_fresh e members :
  ~ In e members -> set_add same e members = members ++ [e].
Proof.
  intros H. unfold set_add. destruct (existsb (same e) members) eqn:E; [| reflexivity].
  apply existsb_exists in E as (y & Hy & Hs). apply same_eq in Hs. subst y. contradiction.
Qed.



Lemma set_fold_nodup l : forall acc,
  NoDup (acc ++ l) ->
  fold_left (fun members e => set_add same e members) l acc = acc ++ l.
Proof.
  induction l as [| e l IH]; intros acc H; simpl.
  - rewrite app_nil_r. reflexivity.
  - rewrite set_add_fresh.
    + rewrite IH; rewrite <- app_assoc; [reflexivity | exact H].
    + apply NoDup_remove_2 in H. intros Hin. apply H. apply in_or_app. left. exact Hin.
Qed.

(** Adding pairwise different items to an empty set keeps them all. *)
Lemma set_of_nodup l : NoDup l -> set_of same l = l.
Proof. intros H. exact (set_fold_nodup l [] H). Qed.

End PythonSetFacts.

Lemma option_eqb_eq {A : Type} (eqb : A -> A -> bool) :
  (forall a b, eqb a b = true <-> a = b) ->
  forall a b, option_eqb eqb a b = true <-> a = b.
Proof.
  intros H [a |] [b |]; simpl; try (split; [discriminate | discriminate]).
  - rewrite H. split; congruence.
  - tauto.
Qed.

Lemma arrow_eqb_eq a b : arrow_eqb a b = true <-> a = b.
Proof.
  unfold arrow_eqb. rewrite andb_true_iff, !Z.eqb_eq.
  destruct a, b; simpl. split; [intros [-> ->]; reflexivity | intros [= -> ->]; auto].
Qed.

Lemma event_eqb_eq a b : event_eqb a b = true <-> a = b.
Proof.
  unfold event_eqb.
  rewrite !andb_true_iff, String.eqb_eq, (option_eqb_eq _ String.eqb_eq), !arrow_eqb_eq.
  destruct a, b; simpl. split.
  - intros [[[-> ->] ->] ->]. reflexivity.
  - intros [= -> -> -> ->]. auto.
Qed.

Section CalendarRuns.

Variables (order : set_order Event) (cfg : Config) (calendar : Calendar Event).

Lemma nodup_codes (l : list Event) : NoDup (map course_code l) -> NoDup l.
Proof.
  induction l as [| a l IH]; simpl; intros H; constructor.
  - apply NoDup_cons_iff in H as [H _]. intros Hin. apply H. apply in_map. exact Hin.
  - apply IH. apply NoDup_cons_iff in H. tauto.
Qed.

(** The calendar [optimize_schedule] returns holds the list
    [optimized_events], whose events are pairwise different. *)
Lemma optimize_schedule_result :
  exists out,
    optimized_events cfg (iteration order (events calendar)) = Returned out /\
    optimize_schedule order cfg calendar = Returned {| events := out |} /\
    map course_code out
    = first_seen (map course_code (kept cfg (iteration order (events calendar)))) /\
    (forall e, In e out -> In e (kept cfg (iteration order (events calendar)))).
Proof.
  destruct (optimize_schedule_clusters cfg (iteration order (events calendar)))
    as (out & Hout & Hkeys & Hin).
  exists out. split; [exact Hout |]. split; [| split; assumption].
  unfold optimize_schedule. rewrite Hout. cbn [bind].
  rewrite (set_of_nodup event_eqb event_eqb_eq); [reflexivity |].
  apply nodup_codes. rewrite Hkeys. apply first_seen_NoDup.
Qed.

Lemma kept_yielded :
  Permutation (kept cfg (iteration order (events calendar))) (kept cfg (events calendar)).
Proof. apply filter_perm. apply iteration_perm. Qed.

(** A list of events with pairwise different course codes, none of them
    skipped, is selected as it is. *)
Lemma optimized_events_fixed (l : list Event) :
  NoDup (map course_code l) ->
  (forall e, In e l -> should_skip_weekend cfg e = false) ->
  optimized_events cfg l = Returned l.
Proof.
  intros Hnd Hs. unfold optimized_events. fold (kept cfg l).
  rewrite (kept_all cfg l Hs), group_events_by_course_grouped. unfold grouped.
  rewrite (first_seen_id _ Hnd), map_map.
  rewrite (map_ext_in _ (fun e => (course_code e, [e])))
    by (intros e He; f_equal; apply members_of_unique; assumption).
  apply select_each_singletons.
Qed.

End CalendarRuns.

(** The events of the returned calendar, against the events of the input
    calendar in the order they were added. *)
Lemma one_per_course_of_list (order : set_order Event) (cfg : Config)
    (calendar : Calendar Event) :
  exists out,
    optimize_schedule order cfg calendar = Returned {| events := out |} /\
    NoDup (map course_code out) /\
    Permutation (map course_code out)
                (first_seen (map course_code (kept cfg (events calendar)))) /\
    List.length out
    = List.length (first_seen (map course_code (kept cfg (events calendar)))).
Proof.
  destruct (optimize_schedule_result order cfg calendar) as (out & _ & Hres & Hkeys & _).
  exists out. split; [exact Hres |].
  split; [rewrite Hkeys; apply first_seen_NoDup |].
  assert (Hp : Permutation (map course_code out)
                 (first_seen (map course_code (kept cfg (events calendar))))).
  { rewrite Hkeys. apply first_seen_perm. apply Permutation_map. apply kept_yielded. }
  split; [exact Hp |].
  apply Permutation_length in Hp. rewrite length_map in Hp. exact Hp.
Qed.

(** C4, as the code has it. [optimize_schedule] returns a calendar whose
    events are a set: it holds exactly one occurrence per distinct course
    code of the occurrences left by the weekend filter (as many events as
    there are distinct codes, never more than the input has), each taken
    from the filtered input. The occurrences are selected and added in the
    first-seen order of the codes in the order the input set yields its
    events, which need not be the order of the feed, and the returned set
    keeps no order. *)
Theorem one_per_course (order : set_order Event) (cfg : Config)
    (calendar : Calendar Event) :
  exists result,
    optimize_schedule order cfg calendar = Returned result /\
    map course_code (events result)
    = first_seen (map course_code (kept cfg (iteration order (events calendar)))) /\
    NoDup (map course_code (events result)) /\
    Permutation (map course_code (events result))
                (first_seen (map course_code (kept cfg (events calendar)))) /\
    List.length (events result)
    = List.length (first_seen (map course_code (kept cfg (events calendar)))) /\
    (List.length (events result) <= List.length (events calendar))%nat /\
    (forall e, In e (events result) -> In e (kept cfg (events calendar))).
Proof.
  destruct (optimize_schedule_result order cfg calendar) as (out & _ & Hres & Hkeys & Hin).
  exists {| events := out |}. cbn [events].
  split; [exact Hres |]. split; [exact Hkeys |].
  split; [rewrite Hkeys; apply first_seen_NoDup |].
  assert (Hp : Permutation (map course_code out)
                 (first_seen (map course_code (kept cfg (events calendar))))).
  { rewrite Hkeys. apply first_seen_perm. apply Permutation_map. apply kept_yielded. }
  split; [exact Hp |].
  assert (Hlen : List.length out
                 = List.length (first_seen (map course_code (kept cfg (events calendar)))))
    by (apply Permutation_length in Hp; rewrite length_map in Hp; exact Hp).
  split; [exact Hlen |]. split.
  - rewrite Hlen.
    pose proof (first_seen_length (map course_code (kept cfg (events calendar)))) as H1.
    rewrite length_map in H1.
    pose proof (filter_length_le (fun e => negb (should_skip_weekend cfg e))
                  (events calendar)) as H2.
    unfold kept in *. lia.
  - intros e He. apply (Permutation_in e (kept_yielded order cfg calendar)). auto.
Qed.

(** C4 as stated fails: a calendar fed with the courses 5417, 5418 and 5419
    in that order, whose set yields the event added first after the others,
    is reduced to a calendar that holds the courses in the order 5418, 5419,
    5417 and yields them in the order 5419, 5417, 5418; neither is the
    first-seen order of the feed. *)
Lemma feed_order_is_lost :
  optimize_schedule Sample.rotated (_load_config None)
    {| events := [Sample.test1; Sample.test3; Sample.b_early] |}
  = Returned {| events := [Sample.test3; Sample.b_early; Sample.test1] |} /\
  first_seen (map course_code
                (kept (_load_config None) [Sample.test1; Sample.test3; Sample.b_early]))
  = ["5417"; "5418"; "5419"] /\
  map course_code [Sample.test3; Sample.b_early; Sample.test1]
  <> ["5417"; "5418"; "5419"] /\
  map course_code (iteration Sample.rotated [Sample.test3; Sample.b_early; Sample.test1])
  <> ["5417"; "5418"; "5419"].
Proof.
  split; [vm_compute; reflexivity |].
  split; [vm_compute; reflexivity |].
  split; vm_compute; discriminate.
Qed.

(** X3. [optimize_schedule] is idempotent on the set of events: run again,
    under the same configuration, on the calendar it returned, it returns a
    calendar with exactly the same events, however the sets are iterated. *)
Theorem optimize_schedule_idempotent (order order' : set_order Event) (cfg : Config)
    (calendar result : Calendar Event) :
  optimize_schedule order cfg calendar = Returned result ->
  exists result',
    optimize_schedule order' cfg result = Returned result' /\
    Permutation (events result') (events result) /\
    (forall e, In e (events result') <-> In e (events result)).
Proof.
  intros Hrun.
  destruct (optimize_schedule_result order cfg calendar) as (out & _ & Hres & Hkeys & Hin).
  rewrite Hrun in Hres. injection Hres as ->. cbn [events].
  pose proof (iteration_perm order' out) as Hp.
  assert (Hnd : NoDup (map course_code (iteration order' out))).
  { apply (Permutation_NoDup (l := map course_code out)).
    - apply Permutation_map. symmetry. exact Hp.
    - rewrite Hkeys. apply first_seen_NoDup. }
  assert (Hfix : optimized_events cfg (iteration order' out)
                 = Returned (iteration order' out)).
  { apply optimized_events_fixed; [exact Hnd |].
    intros e He. apply (kept_not_skipped cfg (iteration order (events calendar))).
    apply Hin. apply (Permutation_in e Hp). exact He. }
  exists {| events := iteration order' out |}. cbn [events]. split.
  - unfold optimize_schedule. cbn [events]. rewrite Hfix. cbn [bind].
    rewrite (set_of_nodup event_eqb event_eqb_eq); [reflexivity |].
    apply nodup_codes. exact Hnd.
  - split; [exact Hp |].
    intros e. split; apply Permutation_in; [| symmetry]; exact Hp.
Qed.

Lemma optimize_schedule_idempotent_witness :
  optimize_schedule Sample.rotated (_load_config None)
    {| events := [Sample.test1; Sample.test2; Sample.saturday; Sample.test3] |}
  = Returned {| events := [Sample.test1; Sample.test3] |} /\
  exists result',
    optimize_schedule Sample.rotated (_load_config None)
      {| events := [Sample.test1; Sample.test3] |} = Returned result' /\
    Permutation (events result') [Sample.test1; Sample.test3].
Proof.
  assert (H : optimize_schedule Sample.rotated (_load_config None)
                {| events := [Sample.test1; Sample.test2; Sample.saturday; Sample.test3] |}
              = Returned {| events := [Sample.test1; Sample.test3] |})
    by (vm_compute; reflexivity).
  split; [exact H |].
  destruct (optimize_schedule_idempotent Sample.rotated Sample.rotated _ _ _ H)
    as (result' & H1 & H2 & _).
  exists result'. split; assumption.
Defined.

(** X4. Unless skip_weekends is set to false (so also when the entry is
    absent), no event of the optimized schedule starts on a Saturday or a
    Sunday of its own time zone. *)
Theorem no_weekend_event_selected (order : set_order Event) (cfg : Config)
    (calendar result : Calendar Event) :
  skip_weekends cfg <> Some false ->
  optimize_schedule order cfg calendar = Returned result ->
  forall e, In e (events result) -> (0 <= weekday (begin e) < 5)%Z.
Proof.
  intros Hs Hrun.
  destruct (optimize_schedule_result order cfg calendar) as (out & Hout & Hres & _).
  rewrite Hrun in Hres. injection Hres as ->. cbn [events].
  exact (no_weekend_in_optimized_events cfg _ out Hs Hout).
Qed.

Lemma no_weekend_event_selected_witness :
  skip_weekends (Sample.config_file None None) <> Some false /\
  optimize_schedule Sample.rotated (Sample.config_file None None)
    {| events := [Sample.saturday; Sample.test3] |}
  = Returned {| events := [Sample.test3] |} /\
  forall e, In e [Sample.test3] -> (0 <= weekday (begin e) < 5)%Z.
Proof.
  assert (H1 : skip_weekends (Sample.config_file None None) <> Some false)
    by discriminate.
  assert (H2 : optimize_schedule Sample.rotated (Sample.config_file None None)
                 {| events := [Sample.saturday; Sample.test3] |}
               = Returned {| events := [Sample.test3] |})
    by (vm_compute; reflexivity).
  split; [exact H1 |]. split; [exact H2 |].
  exact (no_weekend_event_selected Sample.rotated (Sample.config_file None None) _ _ H1 H2).
Defined.

(** X5. With skip_weekends set to false nothing is filtered out: the
    optimized schedule has exactly one event for every distinct course code
    of the whole calendar, weekend events included. *)
Theorem weekends_kept_when_disabled (order : set_order Event) (cfg : Config)
    (calendar : Calendar Event) :
  skip_weekends cfg = Some false ->
  exists result,
    optimize_schedule order cfg calendar = Returned result /\
    NoDup (map course_code (events result)) /\
    (forall k, In k (map course_code (events result))
               <-> In k (map course_code (events calendar))) /\
    List.length (events result)
    = List.length (first_seen (map course_code (events calendar))).
Proof.
  intros Hs.
  destruct (one_per_course_of_list order cfg calendar) as (out & Hres & Hnd & Hp & Hlen).
  rewrite (kept_all cfg (events calendar)) in Hp, Hlen
    by (intros e _; apply skip_disabled; exact Hs).
  exists {| events := out |}. cbn [events].
  split; [exact Hres |]. split; [exact Hnd |]. split; [| exact Hlen].
  intros k. rewrite <- (first_seen_In k (map course_code (events calendar))).
  split; apply Permutation_in; [| symmetry]; exact Hp.
Qed.

Lemma weekends_kept_when_disabled_witness :
  skip_weekends Sample.with_weekends = Some false /\
  exists result,
    optimize_schedule Sample.rotated Sample.with_weekends
      {| events := [Sample.saturday; Sample.test3] |} = Returned result /\
    List.length (events result) = 2%nat.
Proof.
  split; [reflexivity |].
  destruct (weekends_kept_when_disabled Sample.rotated Sample.with_weekends
              {| events := [Sample.saturday; Sample.test3] |} eq_refl)
    as (result & Hres & _ & _ & Hlen).
  exists result. split; [exact Hres |]. rewrite Hlen. vm_compute. reflexivity.
Defined.

(** X7. Neither the order in which the events were added to the calendar
    nor the order in which its set yields them changes the number of
    selected events or the course codes they stand for. *)
Theorem selection_count_order_independent (order order' : set_order Event)
    (cfg : Config) (calendar calendar' : Calendar Event) :
  Permutation (events calendar) (events calendar') ->
  exists result result',
    optimize_schedule order cfg calendar = Returned result /\
    optimize_schedule order' cfg calendar' = Returned result' /\
    Permutation (map course_code (events result)) (map course_code (events result')) /\
    List.length (events result) = List.length (events result').
Proof.
  intros Hp.
  destruct (one_per_course_of_list order cfg calendar) as (out & Hres & _ & Hc & _).
  destruct (one_per_course_of_list order' cfg calendar') as (out' & Hres' & _ & Hc' & _).
  exists {| events := out |}, {| events := out' |}. cbn [events].
  split; [exact Hres |]. split; [exact Hres' |].
  assert (H : Permutation (map course_code out) (map course_code out')).
  { rewrite Hc, Hc'. apply first_seen_perm. apply Permutation_map.
    apply filter_perm. exact Hp. }
  split; [exact H |].
  apply Permutation_length in H. rewrite !length_map in H. exact H.
Qed.

Lemma selection_count_order_independent_witness :
  Permutation [Sample.test1; Sample.test3; Sample.test2]
              [Sample.test3; Sample.test1; Sample.test2] /\
  exists result result',
    optimize_schedule Sample.feed_order (_load_config None)
      {| events := [Sample.test1; Sample.test3; Sample.test2] |} = Returned result /\
    optimize_schedule Sample.rotated (_load_config None)
      {| events := [Sample.test3; Sample.test1; Sample.test2] |} = Returned result' /\
    List.length (events result) = List.length (events result').
Proof.
  assert (H : Permutation [Sample.test1; Sample.test3; Sample.test2]
                          [Sample.test3; Sample.test1; Sample.test2])
    by apply perm_swap.
  split; [exact H |].
  destruct (selection_count_order_independent Sample.feed_order Sample.rotated
              (_load_config None)
              {| events := [Sample.test1; Sample.test3; Sample.test2] |}
              {| events := [Sample.test3; Sample.test1; Sample.test2] |} H)
    as (result & result' & H1 & H2 & _ & H3).
  exists result, result'. auto.
Defined.

(** X17. Whatever preferred_group and optimization_mode a request to
    /optimize or /google-calendar/sync carries or omits, the run skips
    weekends and falls back to ALL: no selected event starts on a Saturday
    or a Sunday, and a cluster without a member of the preferred group but
    with a member labelled ALL yields a member labelled ALL. *)
Theorem webhook_policy (data_preferred_group data_optimization_mode : option string) :
  let cfg := webhook_config data_preferred_group data_optimization_mode in
  (forall order calendar result,
     optimize_schedule order cfg calendar = Returned result ->
     forall e, In e (events result) -> (0 <= weekday (begin e) < 5)%Z) /\
  (forall events code,
     (forall e, In e events -> detect_group e <> get data_preferred_group "A") ->
     (exists e, In e events /\ detect_group e = "ALL") ->
     exists r,
       select_optimal_event cfg events code = Returned (Some r) /\
       In r events /\ detect_group r = "ALL").
Proof.
  intros cfg. split.
  - intros order calendar result Hrun.
    destruct (optimize_schedule_result order cfg calendar) as (out & Hout & Hres & _).
    rewrite Hrun in Hres. injection Hres as ->. cbn [events].
    apply (no_weekend_in_optimized_events cfg (iteration order (events calendar)) out);
      [discriminate | exact Hout].
  - intros events code Hno (a & Ha & Hga).
    assert (Hne : events <> []) by (intros ->; exact Ha).
    destruct (select_by_mode cfg events code Hne) as (r & Hsel & Hin & _).
    exists r. split; [exact Hsel |].
    rewrite (no_preferred_candidates cfg events Hno) in Hin. simpl in Hin.
    destruct (labelled "ALL" events) as [| x l] eqn:Ea.
    + exfalso. apply (proj1 (labelled_nil _ _) Ea a Ha Hga).
    + rewrite <- Ea in Hin. apply labelled_In in Hin. exact Hin.
Qed.

Lemma webhook_policy_witness :
  optimize_schedule Sample.rotated (webhook_config None (Some "latest_lesson"))
    {| events := [Sample.saturday; Sample.test1; Sample.test2] |}
  = Returned {| events := [Sample.test1] |} /\
  forall e, In e [Sample.test1] -> (0 <= weekday (begin e) < 5)%Z.
Proof.
  assert (H : optimize_schedule Sample.rotated (webhook_config None (Some "latest_lesson"))
                {| events := [Sample.saturday; Sample.test1; Sample.test2] |}
              = Returned {| events := [Sample.test1] |})
    by (vm_compute; reflexivity).
  split; [exact H |].
  exact (proj1 (webhook_policy None (Some "latest_lesson")) _ _ _ H).
Defined.

Example sample_optimized_calendar :
  optimize_schedule Sample.feed_order (_load_config None)
    {| events := [Sample.test1; Sample.test2; Sample.saturday; Sample.test3] |}
  = Returned {| events := [Sample.test1; Sample.test3] |}.
Proof. vm_compute. reflexivity. Qed.

(** ** The pipeline on events with missing dates *)


Section ParsedFilter.

Variable cfg : Config.

(** The weekend filter: it raises on the first event without begin when it
    is in force, and keeps the events it does not drop otherwise. *)
Lemma not_skipped_outcome l :
  Parsed.not_skipped cfg l =
  if get (skip_weekends cfg) true && existsb Parsed.no_begin l
  then Raised AttributeError
  else Returned (filter (fun e => negb (Parsed.dropped cfg e)) l).
Proof.
  induction l as [| e l IH]; cbn [Parsed.not_skipped existsb filter].
  - rewrite andb_false_r. reflexivity.
  - rewrite IH. unfold Parsed.should_skip_weekend, Parsed.dropped, Parsed.no_begin.
    destruct (get (skip_weekends cfg) true); cbn [negb andb bind].
    + destruct (Parsed.begin e) as [a |]; cbn [orb bind]; [| reflexivity].
      destruct (existsb _ l); cbn [bind]; [reflexivity |].
      destruct (5 <=? weekday a)%Z; reflexivity.
    + reflexivity.
Qed.

End ParsedFilter.

Section ParsedGroups.





End ParsedGroups.

Section BestFrom.

Variable better : option Arrow -> option Arrow -> outcome bool.
Hypothesis better_raises :
  forall a b exc, better a b = Raised exc -> exc = TypeError /\ (a = None \/ b = None).


End BestFrom.



Section ParsedSelector.

Variable cfg : Config.

Lemma parsed_pairs g events :
  map fst (filter (fun eg => String.eqb (snd eg) g)
                  (map (fun e => (e, Parsed.detect_group e)) events))
  = filter (fun e => String.eqb (Parsed.detect_group e) g) events.
Proof.
  induction events as [| e events IH]; simpl; [reflexivity |].
  destruct (String.eqb (Parsed.detect_group e) g); simpl; congruence.
Qed.

Lemma parsed_all_pairs events :
  map fst (map (fun e => (e, Parsed.detect_group e)) events) = events.
Proof. rewrite map_map. simpl. apply map_id. Qed.




End ParsedSelector.

Section ParsedRuns.

Variables (order : set_order Parsed.VEvent) (cfg : Config)
          (calendar : Calendar Parsed.VEvent).



End ParsedRuns.




(** ** On events with all their dates the two pipelines agree *)

Section Refinement.

Variable cfg : Config.

Lemma of_event_group e : Parsed.detect_group (Parsed.of_event e) = detect_group e.
Proof. destruct e; reflexivity. Qed.

Lemma of_event_code e : Parsed.course_code (Parsed.of_event e) = course_code e.
Proof. destruct e; reflexivity. Qed.

Lemma of_event_begin e : Parsed.begin (Parsed.of_event e) = Some (begin e).
Proof. destruct e; reflexivity. Qed.

Lemma of_event_dropped e :
  Parsed.dropped cfg (Parsed.of_event e) = should_skip_weekend cfg e.
Proof.
  destruct e. unfold Parsed.dropped, should_skip_weekend. simpl.
  destruct (get (skip_weekends cfg) true); reflexivity.
Qed.

Lemma of_event_same a b :
  Parsed.vevent_eqb (Parsed.of_event a) (Parsed.of_event b) = event_eqb a b.
Proof. destruct a, b; reflexivity. Qed.

Lemma filter_map_across {A B : Type} (f : A -> B) (p : B -> bool) (q : A -> bool) l :
  (forall x, p (f x) = q x) -> filter p (map f l) = map f (filter q l).
Proof.
  intros H. induction l as [| x l IH]; simpl; [reflexivity |].
  rewrite H. destruct (q x); simpl; congruence.
Qed.

Lemma parsed_not_skipped_lift l :
  Parsed.not_skipped cfg (map Parsed.of_event l)
  = Returned (map Parsed.of_event (kept cfg l)).
Proof.
  rewrite not_skipped_outcome.
  assert (H : existsb Parsed.no_begin (map Parsed.of_event l) = false).
  { induction l as [| e l IH]; simpl; [reflexivity |].
    rewrite IH. unfold Parsed.no_begin. rewrite of_event_begin. reflexivity. }
  rewrite H, andb_false_r. f_equal. unfold kept.
  apply filter_map_across. intros e. rewrite of_event_dropped. reflexivity.
Qed.

Lemma parsed_dict_append_lift k x (d : dict) :
  Parsed.dict_append k (Parsed.of_event x)
    (map (fun kl => (fst kl, map Parsed.of_event (snd kl))) d)
  = map (fun kl => (fst kl, map Parsed.of_event (snd kl))) (dict_append k x d).
Proof.
  induction d as [| [k' ms] d IH]; simpl; [reflexivity |].
  destruct (String.eqb k k'); simpl.
  - rewrite map_app. reflexivity.
  - rewrite IH. reflexivity.
Qed.

Lemma parsed_group_fold_lift l : forall d : dict,
  fold_left (fun course_groups event =>
               Parsed.dict_append (Parsed.course_code event) event course_groups)
            (map Parsed.of_event l)
            (map (fun kl => (fst kl, map Parsed.of_event (snd kl))) d)
  = map (fun kl => (fst kl, map Parsed.of_event (snd kl)))
        (fold_left (fun course_groups event =>
                      dict_append (course_code event) event course_groups) l d).
Proof.
  induction l as [| x l IH]; intros d; simpl; [reflexivity |].
  rewrite of_event_code, parsed_dict_append_lift. apply IH.
Qed.

Lemma parsed_candidates_lift l :
  Parsed.events_to_choose_from cfg (map Parsed.of_event l)
  = map Parsed.of_event (events_to_choose_from cfg l).
Proof.
  unfold Parsed.events_to_choose_from, events_to_choose_from. cbv zeta.
  rewrite !parsed_pairs, parsed_all_pairs, !labelled_pairs, all_pairs. unfold labelled.
  rewrite !(filter_map_across Parsed.of_event _
              (fun e => String.eqb (detect_group e) _))
    by (intros e; rewrite of_event_group; reflexivity).
  destruct (filter (fun e => String.eqb (detect_group e) (get (preferred_group cfg) "A")) l);
    [| reflexivity].
  cbn [map]. destruct (is_str _ _); [| reflexivity].
  destruct (filter (fun e => String.eqb (detect_group e) "ALL") l); reflexivity.
Qed.

Lemma best_from_lt_lift l : forall b,
  Parsed.best_from Parsed.lt (Parsed.of_event b) (map Parsed.of_event l)
  = Returned (Parsed.of_event (fold_left smaller l b)).
Proof.
  induction l as [| y l IH]; intros b; cbn [map Parsed.best_from fold_left];
    [reflexivity |].
  rewrite !of_event_begin. cbn [Parsed.lt bind]. unfold smaller at 2. fold (start y) (start b).
  destruct (start y <? start b)%Z; apply IH.
Qed.

Lemma best_from_gt_lift l : forall b,
  Parsed.best_from Parsed.gt (Parsed.of_event b) (map Parsed.of_event l)
  = Returned (Parsed.of_event (fold_left greater l b)).
Proof.
  induction l as [| y l IH]; intros b; cbn [map Parsed.best_from fold_left];
    [reflexivity |].
  rewrite !of_event_begin. cbn [Parsed.gt bind]. unfold greater at 2. fold (start y) (start b).
  destruct (start y >? start b)%Z; apply IH.
Qed.

Lemma parsed_select_lift l code :
  Parsed.select_optimal_event cfg (map Parsed.of_event l) code
  = fmap (option_map Parsed.of_event) (select_optimal_event cfg l code).
Proof.
  destruct l as [| e0 l']; [reflexivity |].
  unfold Parsed.select_optimal_event, select_optimal_event.
  rewrite parsed_candidates_lift. cbn [map].
  destruct (events_to_choose_from cfg (e0 :: l')) as [| c cs]; [reflexivity |].
  cbn [map]. destruct (String.eqb _ "earliest_lesson").
  - unfold Parsed.py_min, py_min. rewrite best_from_lt_lift. reflexivity.
  - destruct (String.eqb _ "latest_lesson").
    + unfold Parsed.py_max, py_max. rewrite best_from_gt_lift. reflexivity.
    + reflexivity.
Qed.

Lemma parsed_select_each_lift (d : dict) :
  Parsed.select_each cfg (map (fun kl => (fst kl, map Parsed.of_event (snd kl))) d)
  = fmap (map Parsed.of_event) (select_each cfg d).
Proof.
  induction d as [| [k ms] d IH]; [reflexivity |].
  cbn [map Parsed.select_each select_each fst snd]. rewrite parsed_select_lift, IH.
  destruct (select_optimal_event cfg ms k) as [[r |] | exc]; cbn [bind fmap option_map];
    destruct (select_each cfg d); reflexivity.
Qed.

Lemma set_fold_lift l : forall acc,
  fold_left (fun members e => set_add Parsed.vevent_eqb e members)
            (map Parsed.of_event l) (map Parsed.of_event acc)
  = map Parsed.of_event (fold_left (fun members e => set_add event_eqb e members) l acc).
Proof.
  induction l as [| e l IH]; intros acc; simpl; [reflexivity |].
  rewrite <- IH. f_equal. unfold set_add.
  assert (H : existsb (Parsed.vevent_eqb (Parsed.of_event e)) (map Parsed.of_event acc)
              = existsb (event_eqb e) acc).
  { clear IH. induction acc as [| a acc IHa]; simpl; [reflexivity |].
    rewrite of_event_same, IHa. reflexivity. }
  rewrite H. destruct (existsb (event_eqb e) acc); [reflexivity |].
  rewrite map_app. reflexivity.
Qed.

(** When every event has its dates, the pipeline on parsed events is the
    pipeline on events. *)
Lemma parsed_pipeline_agrees (order : set_order Event)
    (order' : set_order Parsed.VEvent) (calendar : Calendar Event) :
  iteration order' (map Parsed.of_event (events calendar))
  = map Parsed.of_event (iteration order (events calendar)) ->
  Parsed.optimize_schedule order' cfg
    {| events := map Parsed.of_event (events calendar) |}
  = fmap (fun c => {| events := map Parsed.of_event (events c) |})
         (optimize_schedule order cfg calendar).
Proof.
  intros Ho. unfold Parsed.optimize_schedule, optimize_schedule, optimized_events.
  cbn [events]. rewrite Ho, parsed_not_skipped_lift. cbn [bind].
  fold (kept cfg (iteration order (events calendar))).
  unfold Parsed.group_events_by_course, group_events_by_course.
  rewrite (parsed_group_fold_lift _ []), parsed_select_each_lift.
  destruct (select_each cfg _) as [out | exc]; cbn [fmap bind events]; [| reflexivity].
  do 2 f_equal. exact (set_fold_lift out []).
Qed.

End Refinement.
